(** * Unicode text formatter: a shallow embedding and its properties

    The formatter of [src/utils/appLockStorage.ts] (second document of the
    file, the module the editor imports as [unicodeTextFormatter]) turns
    plain text into "styled" Unicode text and back.  JavaScript strings are
    sequences of UTF-16 code units, and the source mixes the two ways of
    walking a string: [text.split('')] walks code units, [Array.from(text)]
    walks code points.  The embedding keeps that difference: a string is a
    [list Z] of code units, and every operation is modelled at that level. *)

From stdpp Require Import gmap list strings.
From Equations Require Import Equations.
From Stdlib Require Import ZArith.
From Stdlib Require Ascii DecimalString.

Local Open Scope Z_scope.

(** ** JavaScript strings *)

Module JsString.

(** A string value: its UTF-16 code units, each in [0, 0xFFFF]. *)
Abbreviation jsstring := (list Z).

(** An ASCII literal of the source, as code units. *)
Definition str (s : string) : jsstring :=
  (λ a, Z.of_N (Ascii.N_of_ascii a)) <$> String.list_ascii_of_string s.

(** [a === b] on strings. *)
Fixpoint streq (a b : jsstring) : bool :=
  match a, b with
  | [], [] => true
  | x :: a', y :: b' => (x =? y) && streq a' b'
  | _, _ => false
  end.

(** Truthiness of a string-or-undefined value: [undefined] and the empty
    string are falsy. *)
Definition truthy (v : option jsstring) : option jsstring :=
  match v with
  | Some (u :: r) => Some (u :: r)
  | _ => None
  end.

Definition isHighSurrogate (u : Z) : bool := (0xD800 <=? u) && (u <=? 0xDBFF).
Definition isLowSurrogate (u : Z) : bool := (0xDC00 <=? u) && (u <=? 0xDFFF).

(** [String.fromCodePoint(cp)] for [0 <= cp <= 0x10FFFF]: one unit in the
    Basic Multilingual Plane, a surrogate pair above it. *)
Definition fromCodePoint (cp : Z) : jsstring :=
  if cp <? 0x10000 then [cp]
  else [0xD800 + Z.shiftr (cp - 0x10000) 10; 0xDC00 + Z.land (cp - 0x10000) 0x3FF].

(** [s.split('')]: one one-unit string per code unit. *)
Definition split_units (s : jsstring) : list jsstring := (λ u, [u]) <$> s.

(** [Array.from(s)]: the string iterator, one element per code point.  A
    high surrogate followed by a low surrogate makes one two-unit element,
    any other unit (a lone surrogate too) is an element of its own. *)
Fixpoint Array_from (s : jsstring) : list jsstring :=
  match s with
  | [] => []
  | u :: rest =>
      match rest with
      | v :: rest' =>
          if isHighSurrogate u && isLowSurrogate v
          then [u; v] :: Array_from rest'
          else [u] :: Array_from rest
      | [] => [[u]]
      end
  end.

(** [parts.join(sep)]. *)
Fixpoint join (sep : jsstring) (parts : list jsstring) : jsstring :=
  match parts with
  | [] => []
  | [p] => p
  | p :: ps => p ++ sep ++ join sep ps
  end.

(** [s.split('\n')]: never empty, [''.split('\n')] is [['']]. *)
Fixpoint split_newline (s : jsstring) : list jsstring :=
  match s with
  | [] => [[]]
  | u :: rest =>
      if u =? 0x0A then [] :: split_newline rest
      else match split_newline rest with
           | line :: lines => (u :: line) :: lines
           | [] => [[u]]
           end
  end.

(** White space and line terminators of ECMAScript, what [trim] strips. *)
Definition isWhiteSpace (u : Z) : bool :=
  (u =? 0x09) || (u =? 0x0A) || (u =? 0x0B) || (u =? 0x0C) || (u =? 0x0D)
  || (u =? 0x20) || (u =? 0xA0) || (u =? 0x1680)
  || ((0x2000 <=? u) && (u <=? 0x200A))
  || (u =? 0x2028) || (u =? 0x2029) || (u =? 0x202F) || (u =? 0x205F)
  || (u =? 0x3000) || (u =? 0xFEFF).

Fixpoint trimStart (s : jsstring) : jsstring :=
  match s with
  | u :: rest => if isWhiteSpace u then trimStart rest else s
  | [] => []
  end.

(** [s.trim()]. *)
Definition trim (s : jsstring) : jsstring :=
  reverse (trimStart (reverse (trimStart s))).

(** [String(n)] for a positive integer: its decimal digits. *)
Definition numberToString (n : nat) : jsstring :=
  str (DecimalString.NilZero.string_of_uint (Nat.to_uint n)).

(** A [Record<string, string>]: the own properties in [Object.entries]
    order.  Every key written below is either a non-numeric string
    (kept in insertion order) or one of the digits written in ascending
    order, so insertion order is the enumeration order. *)
Abbreviation Obj := (list (jsstring * jsstring)).

(** [o[k]] for an own property. *)
Fixpoint obj_get (o : Obj) (k : jsstring) : option jsstring :=
  match o with
  | [] => None
  | (k', v) :: o' => if streq k' k then Some v else obj_get o' k
  end.

(** [o[k] = v]: overwrite in place, or add at the end. *)
Fixpoint obj_set (k v : jsstring) (o : Obj) : Obj :=
  match o with
  | [] => [(k, v)]
  | (k', v') :: o' => if streq k' k then (k', v) :: o' else (k', v') :: obj_set k v o'
  end.

(** [chars.reduce((acc, char, i) => f(acc, char, i), init)]. *)
Definition reduce {A} (f : A → jsstring → Z → A) (chars : list jsstring) (init : A) : A :=
  foldl (λ acc ic, f acc ic.2 (Z.of_nat ic.1)) init (imap pair chars).

End JsString.

Import JsString.

(** ** The formatter *)

Module Formatter.

(** One style of [charMaps]: upper, lower and, for some styles, digits. *)
Record StyleMap := mkStyleMap {
  upper : Obj;
  lower : Obj;
  digits : option Obj
}.

(** [alphabet.split('').reduce((acc, char, i) => { acc[char] =
    String.fromCodePoint(base + i); return acc; }, {})]. *)
Definition offsetTable (alphabet : string) (base : Z) : Obj :=
  reduce (λ acc char i, obj_set char (fromCodePoint (base + i)) acc)
         (split_units (str alphabet)) [].

(** The same with a [special[char] || String.fromCodePoint(base + i)]. *)
Definition offsetTableWith (special : Obj) (alphabet : string) (base : Z) : Obj :=
  reduce (λ acc char i,
            obj_set char (default (fromCodePoint (base + i)) (truthy (obj_get special char))) acc)
         (split_units (str alphabet)) [].

Definition UPPER : string := "ABCDEFGHIJKLMNOPQRSTUVWXYZ".
Definition LOWER : string := "abcdefghijklmnopqrstuvwxyz".
Definition DIGITS : string := "0123456789".

(** The lower table of [italic]: ['h'] is the Planck constant U+210E. *)
Definition italicLower : Obj :=
  reduce (λ acc char i,
            if streq char (str "h") then obj_set char [0x210E] acc
            else obj_set char (fromCodePoint (0x1D44E + i)) acc)
         (split_units (str LOWER)) [].

Definition scriptUpperSpecial : Obj :=
  [ (str "B", [0x212C]); (str "E", [0x2130]); (str "F", [0x2131]);
    (str "H", [0x210B]); (str "I", [0x2110]); (str "L", [0x2112]);
    (str "M", [0x2133]); (str "R", [0x211B]); (str "e", [0x212F]);
    (str "g", [0x210A]); (str "o", [0x2134]) ].

Definition scriptLowerSpecial : Obj :=
  [ (str "e", [0x212F]); (str "g", [0x210A]); (str "o", [0x2134]) ].

Definition doublestruckSpecial : Obj :=
  [ (str "C", [0x2102]); (str "H", [0x210D]); (str "N", [0x2115]);
    (str "P", [0x2119]); (str "Q", [0x211A]); (str "R", [0x211D]);
    (str "Z", [0x2124]) ].

Inductive UnicodeStyle :=
| bold | italic | boldItalic | sansNormal | boldSans | italicSans
| boldItalicSans | script | monospace | doublestruck
| underline | strikethrough | boldUnderline | boldStrikethrough.

#[global] Instance UnicodeStyle_eq_dec : EqDecision UnicodeStyle.
Proof. solve_decision. Defined.

(** [charMaps], in the order of the object literal. *)
Definition charMaps : list (UnicodeStyle * StyleMap) :=
  [ (bold, mkStyleMap (offsetTable UPPER 0x1D400) (offsetTable LOWER 0x1D41A)
                      (Some (offsetTable DIGITS 0x1D7CE)));
    (italic, mkStyleMap (offsetTable UPPER 0x1D434) italicLower None);
    (boldItalic, mkStyleMap (offsetTable UPPER 0x1D468) (offsetTable LOWER 0x1D482) None);
    (boldSans, mkStyleMap (offsetTable UPPER 0x1D5D4) (offsetTable LOWER 0x1D5EE)
                          (Some (offsetTable DIGITS 0x1D7EC)));
    (sansNormal, mkStyleMap (offsetTable UPPER 0x1D5A0) (offsetTable LOWER 0x1D5BA)
                            (Some (offsetTable DIGITS 0x1D7E2)));
    (italicSans, mkStyleMap (offsetTable UPPER 0x1D608) (offsetTable LOWER 0x1D622) None);
    (boldItalicSans, mkStyleMap (offsetTable UPPER 0x1D63C) (offsetTable LOWER 0x1D656) None);
    (script, mkStyleMap (offsetTableWith scriptUpperSpecial UPPER 0x1D49C)
                        (offsetTableWith scriptLowerSpecial LOWER 0x1D4B6) None);
    (monospace, mkStyleMap (offsetTable UPPER 0x1D670) (offsetTable LOWER 0x1D68A)
                           (Some (offsetTable DIGITS 0x1D7F6)));
    (doublestruck, mkStyleMap (offsetTableWith doublestruckSpecial UPPER 0x1D538)
                              (offsetTable LOWER 0x1D552)
                              (Some (offsetTable DIGITS 0x1D7D8))) ].

(** [charMaps[style]]. *)
Definition charMaps_get (style : UnicodeStyle) : option StyleMap :=
  snd <$> List.find (λ e, bool_decide (e.1 = style)) charMaps.

Definition COMBINING_UNDERLINE : jsstring := [0x0332].
Definition COMBINING_STRIKETHROUGH : jsstring := [0x0336].

(** The callback of the last [map] of [toUnicodeStyle]: upper, then lower,
    then digits, else the character itself. *)
Definition styleChar (map : StyleMap) (char : jsstring) : jsstring :=
  match truthy (obj_get (upper map) char) with
  | Some v => v
  | None =>
      match truthy (obj_get (lower map) char) with
      | Some v => v
      | None =>
          match truthy (digits map ≫= (λ d, obj_get d char)) with
          | Some v => v
          | None => char
          end
      end
  end.

(** [s.split('').map(char => char + marker).join('')]. *)
Definition appendAfterEach (marker : jsstring) (s : jsstring) : jsstring :=
  join [] ((λ char, char ++ marker) <$> split_units s).

(** The depth of the recursion of [toUnicodeStyle] on a style. *)
Definition styleRank (style : UnicodeStyle) : nat :=
  match style with
  | boldUnderline | boldStrikethrough => 1%nat
  | _ => 0%nat
  end.

(** [toUnicodeStyle(text, style)].  The first clause is [if (!text) return ''];
    the next four are the tests on the combining styles, with the two
    recursive calls of the source on the style [bold]; the last is the
    lookup in [charMaps] and the [map] over [text.split('')]. *)
Equations toUnicodeStyle (text : jsstring) (style : UnicodeStyle) : jsstring
  by wf (styleRank style) lt :=
  toUnicodeStyle [] _ := [];
  toUnicodeStyle text underline := appendAfterEach COMBINING_UNDERLINE text;
  toUnicodeStyle text strikethrough := appendAfterEach COMBINING_STRIKETHROUGH text;
  toUnicodeStyle text boldUnderline :=
    appendAfterEach COMBINING_UNDERLINE (toUnicodeStyle text bold);
  toUnicodeStyle text boldStrikethrough :=
    appendAfterEach COMBINING_STRIKETHROUGH (toUnicodeStyle text bold);
  toUnicodeStyle text style :=
    match charMaps_get style with
    | None => text
    | Some map => join [] (styleChar map <$> split_units text)
    end.

(** *** List formatters *)

Definition NEWLINE : jsstring := [0x0A].

(** [text.split('\n').filter(line => line.trim())]. *)
Definition keptLines (text : jsstring) : list jsstring :=
  List.filter (λ line, bool_decide (is_Some (truthy (Some (trim line)))))
              (split_newline text).

(** [lines.map(line => `${marker} ${line.trim()}`).join('\n')]. *)
Definition markerList (marker : jsstring) (text : jsstring) : jsstring :=
  join NEWLINE ((λ line, marker ++ str " " ++ trim line) <$> keptLines text).

Definition toBulletList (text : jsstring) : jsstring := markerList [0x2022] text.

Definition toNumberedList (text : jsstring) : jsstring :=
  join NEWLINE
       (imap (λ i line, numberToString (i + 1) ++ str ". " ++ trim line) (keptLines text)).

Definition toCheckboxList (text : jsstring) : jsstring := markerList [0x2610] text.
Definition toAscendingList (text : jsstring) : jsstring := markerList [0x2197] text.
Definition toDescendingList (text : jsstring) : jsstring := markerList [0x2198] text.

(** *** Removing the styling *)

(** [text.replace(new RegExp(`[${COMBINING_UNDERLINE}${COMBINING_STRIKETHROUGH}]`, 'g'), '')]:
    the pattern has no [u] flag and both marks are single units. *)
Definition isMarkUnit (u : Z) : bool :=
  streq [u] COMBINING_UNDERLINE || streq [u] COMBINING_STRIKETHROUGH.

Definition removeMarks (text : jsstring) : jsstring :=
  List.filter (λ u, negb (isMarkUnit u)) text.

(** [Object.entries(caseMap).forEach(([plain, unicode]) => { reverseMap[unicode] = plain; })]. *)
Definition addEntries (caseMap : Obj) (m : gmap jsstring jsstring) : gmap jsstring jsstring :=
  foldl (λ acc e, <[e.2 := e.1]> acc) m caseMap.

Definition addStyle (m : gmap jsstring jsstring) (styleMap : StyleMap) : gmap jsstring jsstring :=
  let m1 := addEntries (upper styleMap) m in
  let m2 := addEntries (lower styleMap) m1 in
  match digits styleMap with
  | Some d => addEntries d m2
  | None => m2
  end.

(** The [reverseMap] built by [removeUnicodeFormatting]: later writes win. *)
Definition reverseMap : gmap jsstring jsstring :=
  foldl addStyle ∅ (snd <$> charMaps).

(** [char => reverseMap[char] || char]. *)
Definition unstyleChar (char : jsstring) : jsstring :=
  default char (truthy (reverseMap !! char)).

Definition removeUnicodeFormatting (text : jsstring) (preserveCombining : bool) : jsstring :=
  let result := if preserveCombining then text else removeMarks text in
  join [] (unstyleChar <$> Array_from result).

(** *** Emphasis detection *)

Module Em.
Inductive CharEmphasis := none | bold | italic | boldItalic.
End Em.
Export Em(CharEmphasis).

#[global] Instance CharEmphasis_eq_dec : EqDecision CharEmphasis.
Proof. solve_decision. Defined.

Record Detected := mkDetected { plain : jsstring; emphasis : CharEmphasis }.

(** The test on [styleName] inside [detectCharEmphasis]. *)
Definition emphasisOf (styleName : UnicodeStyle) : CharEmphasis :=
  match styleName with
  | bold | boldSans => Em.bold
  | italic | italicSans => Em.italic
  | boldItalic | boldItalicSans => Em.boldItalic
  | _ => Em.none
  end.

(** [for (const [plain, unicode] of Object.entries(caseMap))]: the first
    entry whose value is [char]. *)
Fixpoint scanCaseMap (char : jsstring) (caseMap : Obj) : option jsstring :=
  match caseMap with
  | [] => None
  | (p, unicode) :: rest => if streq char unicode then Some p else scanCaseMap char rest
  end.

(** [for (const caseMap of [upper, lower, digits])], skipping a missing one. *)
Fixpoint scanCaseMaps (char : jsstring) (caseMaps : list (option Obj)) : option jsstring :=
  match caseMaps with
  | [] => None
  | None :: rest => scanCaseMaps char rest
  | Some caseMap :: rest =>
      match scanCaseMap char caseMap with
      | Some p => Some p
      | None => scanCaseMaps char rest
      end
  end.

(** [for (const [styleName, styleMap] of Object.entries(charMaps))]. *)
Fixpoint scanStyles (char : jsstring) (maps : list (UnicodeStyle * StyleMap)) : option Detected :=
  match maps with
  | [] => None
  | (styleName, styleMap) :: rest =>
      match scanCaseMaps char [Some (upper styleMap); Some (lower styleMap); digits styleMap] with
      | Some p => Some (mkDetected p (emphasisOf styleName))
      | None => scanStyles char rest
      end
  end.

Definition detectCharEmphasis (char : jsstring) : Detected :=
  default (mkDetected char Em.none) (scanStyles char charMaps).

(** *** Conversion between variants *)

(** A cell of [variantEmphasisMap]: a style, or the literal ['plain']. *)
Inductive Target := plainTarget | styleTarget (s : UnicodeStyle).

Record EmphasisMapping := mkMapping {
  onNone : Target; onBold : Target; onItalic : Target; onBoldItalic : Target
}.

Definition onStyle (s : UnicodeStyle) :=
  mkMapping (styleTarget s) (styleTarget s) (styleTarget s) (styleTarget s).

Definition variantEmphasisMap : list (string * EmphasisMapping) :=
  [ ("normal", mkMapping plainTarget (styleTarget bold) (styleTarget italic) (styleTarget boldItalic));
    ("bold", mkMapping (styleTarget bold) (styleTarget bold) (styleTarget boldItalic) (styleTarget boldItalic));
    ("italic", mkMapping (styleTarget italic) (styleTarget boldItalic) (styleTarget italic) (styleTarget boldItalic));
    ("boldItalic", onStyle boldItalic);
    ("sansNormal", mkMapping (styleTarget sansNormal) (styleTarget boldSans) (styleTarget italicSans) (styleTarget boldItalicSans));
    ("boldSans", mkMapping (styleTarget boldSans) (styleTarget boldSans) (styleTarget boldItalicSans) (styleTarget boldItalicSans));
    ("italicSans", mkMapping (styleTarget italicSans) (styleTarget boldItalicSans) (styleTarget italicSans) (styleTarget boldItalicSans));
    ("boldItalicSans", onStyle boldItalicSans);
    ("script", onStyle script);
    ("monospace", onStyle monospace);
    ("doublestruck", onStyle doublestruck) ]%string.

(** [variantEmphasisMap] is an object literal, so a lookup that finds no
    own property goes on to [Object.prototype].  These are its property
    names (ECMAScript, with Annex B); each holds a function or an object,
    hence a truthy value. *)
Definition objectPrototypeKeys : list string :=
  [ "constructor"; "hasOwnProperty"; "isPrototypeOf"; "propertyIsEnumerable";
    "toLocaleString"; "toString"; "valueOf"; "__proto__";
    "__defineGetter__"; "__defineSetter__"; "__lookupGetter__"; "__lookupSetter__" ]%string.

(** The value of [variantEmphasisMap[targetVariant]]. *)
Inductive MappingLookup :=
| ownMapping (m : EmphasisMapping)
| inheritedValue
| undefinedValue.

Fixpoint ownProperty (table : list (string * EmphasisMapping)) (key : jsstring)
  : option EmphasisMapping :=
  match table with
  | [] => None
  | (k, m) :: rest => if streq (str k) key then Some m else ownProperty rest key
  end.

Definition variantEmphasisMap_get (targetVariant : jsstring) : MappingLookup :=
  match ownProperty variantEmphasisMap targetVariant with
  | Some m => ownMapping m
  | None =>
      if existsb (λ k, streq (str k) targetVariant) objectPrototypeKeys
      then inheritedValue
      else undefinedValue
  end.

(** [emphasisMapping[emphasis]]: a cell of an own row; [undefined] (here
    [None]) on an inherited value, none of which has a property named
    [none], [bold], [italic] or [boldItalic]. *)
Definition targetStyleOf (lookup : MappingLookup) (e : CharEmphasis) : option Target :=
  match lookup with
  | ownMapping m =>
      Some match e with
           | Em.none => onNone m
           | Em.bold => onBold m
           | Em.italic => onItalic m
           | Em.boldItalic => onBoldItalic m
           end
  | _ => None
  end.

(** The [if (targetStyle === 'plain') ... else ...] of the conversion.
    With [targetStyle] undefined the call [toUnicodeStyle(plain, undefined)]
    passes the four tests on the style, finds no [charMaps[undefined]] and
    returns its text (or [''] for an empty text, which is the same). *)
Definition convertTo (targetStyle : option Target) (p : jsstring) : jsstring :=
  match targetStyle with
  | Some plainTarget => p
  | Some (styleTarget s) => toUnicodeStyle p s
  | None => p
  end.

Definition isCombiningChar (char : jsstring) : bool :=
  streq char COMBINING_UNDERLINE || streq char COMBINING_STRIKETHROUGH.

(** One turn of the first loop: the state is [cleanChars] and
    [combiningChars]; a mark goes under the index of the last clean
    character, which is [-1] while there is none. *)
Definition collectChar (st : list jsstring * gmap Z (list jsstring)) (char : jsstring)
  : list jsstring * gmap Z (list jsstring) :=
  if isCombiningChar char then
    let lastIdx := Z.of_nat (length st.1) - 1 in
    (st.1, <[lastIdx := default [] (st.2 !! lastIdx) ++ [char]]> st.2)
  else (st.1 ++ [char], st.2).

(** The callback of [cleanChars.map((char, idx) => ...)]. *)
Definition convertChar (lookup : MappingLookup) (combiningChars : gmap Z (list jsstring))
    (idx : nat) (char : jsstring) : jsstring :=
  let d := detectCharEmphasis char in
  let converted := convertTo (targetStyleOf lookup (emphasis d)) (plain d) in
  match combiningChars !! Z.of_nat idx with
  | Some marks => converted ++ join [] marks
  | None => converted
  end.

Definition convertPreservingEmphasis (text : jsstring) (targetVariant : jsstring) : jsstring :=
  match variantEmphasisMap_get targetVariant with
  | undefinedValue => text
  | lookup =>
      let st := foldl collectChar ([], ∅) (Array_from text) in
      join [] (imap (convertChar lookup st.2) st.1)
  end.

End Formatter.

Import Formatter.

(** ** The app lock *)

Module AppLock.

(** ['immediately' | '30seconds' | '1minute' | '5minutes' | '15minutes' | '30minutes']. *)
Inductive LockTiming :=
| immediately | after30seconds | after1minute | after5minutes | after15minutes | after30minutes.

Record SecurityQuestion := mkQuestion { question : jsstring; answer : jsstring }.

(** [pinHash] and [lastUnlockTime] are [null] (here [None]) or a value; a
    time is a count of milliseconds, an integer. *)
Record AppLockSettings := mkSettings {
  isEnabled : bool;
  pinHash : option jsstring;
  securityQuestions : list SecurityQuestion;
  biometricEnabled : bool;
  lockTiming : LockTiming;
  lastUnlockTime : option Z
}.

Definition DEFAULT_SETTINGS : AppLockSettings :=
  mkSettings false None [] false immediately None.

(** The table [timingMs] of [shouldAppBeLocked]. *)
Definition timingMs (t : LockTiming) : Z :=
  match t with
  | immediately => 0
  | after30seconds => 30 * 1000
  | after1minute => 60 * 1000
  | after5minutes => 5 * 60 * 1000
  | after15minutes => 15 * 60 * 1000
  | after30minutes => 30 * 60 * 1000
  end.

(** [shouldAppBeLocked], on the settings it reads and the [Date.now()] it
    takes.  [!settings.pinHash] holds of [null] and of the empty string,
    [!settings.lastUnlockTime] of [null] and of 0. *)
Definition shouldAppBeLocked (settings : AppLockSettings) (now : Z) : bool :=
  if negb (isEnabled settings) || negb (bool_decide (is_Some (truthy (pinHash settings))))
  then false
  else
    match lastUnlockTime settings with
    | None => true
    | Some last =>
        if last =? 0 then true
        else timingMs (lockTiming settings) <=? now - last
    end.

(** The writers, each from the settings it reads to the settings it saves. *)
Definition disableAppLock : AppLockSettings := DEFAULT_SETTINGS.

Definition setBiometricEnabled (enabled : bool) (settings : AppLockSettings) : AppLockSettings :=
  mkSettings (isEnabled settings) (pinHash settings) (securityQuestions settings)
             enabled (lockTiming settings) (lastUnlockTime settings).

Definition setLockTiming (timing : LockTiming) (settings : AppLockSettings) : AppLockSettings :=
  mkSettings (isEnabled settings) (pinHash settings) (securityQuestions settings)
             (biometricEnabled settings) timing (lastUnlockTime settings).

Definition updateLastUnlockTime (now : Z) (settings : AppLockSettings) : AppLockSettings :=
  mkSettings (isEnabled settings) (pinHash settings) (securityQuestions settings)
             (biometricEnabled settings) (lockTiming settings) (Some now).

Section Pin.

(** [hashPin]: the hexadecimal SHA-256 digest of the PIN and a salt, computed
    by the platform; a parameter here. *)
Variable hashPin : jsstring → jsstring.

Definition verifyPin (pin storedHash : jsstring) : bool := streq (hashPin pin) storedHash.

Definition enableAppLock (pin : jsstring) (questions : list SecurityQuestion) (now : Z)
    (settings : AppLockSettings) : AppLockSettings :=
  mkSettings true (Some (hashPin pin)) questions
             (biometricEnabled settings) (lockTiming settings) (Some now).

Definition resetPinWithSecurityQuestions (newPin : jsstring) (now : Z)
    (settings : AppLockSettings) : AppLockSettings :=
  mkSettings (isEnabled settings) (Some (hashPin newPin)) (securityQuestions settings)
             (biometricEnabled settings) (lockTiming settings) (Some now).

(** [changePin]: the boolean it returns and the settings it leaves (the
    ones it read when it saves nothing). *)
Definition changePin (oldPin newPin : jsstring) (now : Z) (settings : AppLockSettings)
  : bool * AppLockSettings :=
  match truthy (pinHash settings) with
  | None => (false, settings)
  | Some stored =>
      if verifyPin oldPin stored
      then (true, mkSettings (isEnabled settings) (Some (hashPin newPin))
                             (securityQuestions settings) (biometricEnabled settings)
                             (lockTiming settings) (Some now))
      else (false, settings)
  end.

(** The calls that write the settings, and a run of them. *)
Inductive call :=
| callEnable (pin : jsstring) (questions : list SecurityQuestion) (now : Z)
| callDisable
| callBiometric (enabled : bool)
| callTiming (timing : LockTiming)
| callUnlock (now : Z)
| callReset (newPin : jsstring) (now : Z)
| callChange (oldPin newPin : jsstring) (now : Z).

Definition perform (settings : AppLockSettings) (c : call) : AppLockSettings :=
  match c with
  | callEnable pin questions now => enableAppLock pin questions now settings
  | callDisable => disableAppLock
  | callBiometric enabled => setBiometricEnabled enabled settings
  | callTiming timing => setLockTiming timing settings
  | callUnlock now => updateLastUnlockTime now settings
  | callReset newPin now => resetPinWithSecurityQuestions newPin now settings
  | callChange oldPin newPin now => (changePin oldPin newPin now settings).2
  end.

Definition isEnable (c : call) : bool :=
  match c with callEnable _ _ _ => true | _ => false end.

End Pin.

End AppLock.

Import AppLock.

(** ** The editor *)

Module Editor.

(** [s.substring(start, end)]: both ends are brought into the string and
    put in order. *)
Definition substring (s : jsstring) (start end_ : Z) : jsstring :=
  let len := Z.of_nat (length s) in
  let a := Z.max 0 (Z.min start len) in
  let b := Z.max 0 (Z.min end_ len) in
  let from := Z.min a b in
  let to := Z.max a b in
  take (Z.to_nat (to - from)) (drop (Z.to_nat from) s).

(** [s.substring(start)]. *)
Definition substringFrom (s : jsstring) (start : Z) : jsstring :=
  substring s start (Z.of_nat (length s)).

(** The state of the component: [content], [history], [historyIndex].  The
    content is [undefined] (here [None]) when it is set from a missing
    element of the history. *)
Record EditorState := mkEditor {
  content : option jsstring;
  history : list jsstring;
  historyIndex : nat
}.

Definition initialState (initialContent : jsstring) : EditorState :=
  mkEditor (Some initialContent) [initialContent] 0.

(** [l.slice(-50)]. *)
Definition last50 (l : list jsstring) : list jsstring := drop (length l - 50) l.

(** [updateContent], run on the state of the render that made it. *)
Definition updateContent (newContent : jsstring) (st : EditorState) : EditorState :=
  mkEditor (Some newContent)
           (last50 (take (historyIndex st + 1) (history st) ++ [newContent]))
           (Nat.min (historyIndex st + 1) 49).

Definition undo (st : EditorState) : EditorState :=
  if (0 <? Z.of_nat (historyIndex st)) then
    let newIndex := (historyIndex st - 1)%nat in
    mkEditor (history st !! newIndex) (history st) newIndex
  else st.

Definition redo (st : EditorState) : EditorState :=
  if (Z.of_nat (historyIndex st) <? Z.of_nat (length (history st)) - 1) then
    let newIndex := (historyIndex st + 1)%nat in
    mkEditor (history st !! newIndex) (history st) newIndex
  else st.

(** [applyStyle] on a content and the selection [start, end]: the new
    content and the selection it sets, or nothing when no text is selected. *)
Definition applyStyle (content : jsstring) (start end_ : Z) (style : UnicodeStyle)
  : option (jsstring * (Z * Z)) :=
  match truthy (Some (substring content start end_)) with
  | None => None
  | Some text =>
      let styledText := toUnicodeStyle text style in
      Some (substring content 0 start ++ styledText ++ substringFrom content end_,
            (start, start + Z.of_nat (length styledText)))
  end.

(** [clearFormatting]: the content it hands to [updateContent]. *)
Definition clearFormatting (content : jsstring) (start end_ : Z) : jsstring :=
  match truthy (Some (substring content start end_)) with
  | Some text =>
      substring content 0 start ++ removeUnicodeFormatting text false
      ++ substringFrom content end_
  | None => removeUnicodeFormatting content false
  end.

End Editor.

Import Editor.

(** ** Vocabulary of the statements *)

(** A value that fits in seven bits is one of the 128 ASCII codes, so a
    boolean test run on those settles it. *)
Definition asciiCodes : list Z := Z.of_nat <$> seq 0 128.

(** An element the iterator can produce: one unit, or a surrogate pair. *)
Definition codePointShape (e : jsstring) : bool :=
  match e with
  | [_] => true
  | [h; l] => isHighSurrogate h && isLowSurrogate l
  | _ => false
  end.

Definition startsLow (e : jsstring) : bool :=
  match e with
  | v :: _ => isLowSurrogate v
  | [] => false
  end.

Definition loneHigh (e : jsstring) : bool :=
  match e with
  | [u] => isHighSurrogate u
  | _ => false
  end.

(** A list of elements is the iterator's own segmentation of their
    concatenation when no lone high surrogate stands before a low one. *)
Fixpoint canonical (es : list jsstring) : bool :=
  match es with
  | [] => true
  | e :: rest =>
      codePointShape e
      && negb (loneHigh e && match rest with e' :: _ => startsLow e' | [] => false end)
      && canonical rest
  end.

(** The entries of one style, in the order the loops visit them. *)
Definition entriesOf (sm : StyleMap) : Obj :=
  upper sm ++ lower sm ++ default [] (digits sm).

(** Every entry of [charMaps], with the name of its style. *)
Definition styledEntries : list (UnicodeStyle * (jsstring * jsstring)) :=
  nsm ← charMaps; pair nsm.1 <$> entriesOf nsm.2.

(** An ASCII letter or digit. *)
Definition isAsciiAlnum (u : Z) : bool :=
  ((0x30 <=? u) && (u <=? 0x39)) || ((0x41 <=? u) && (u <=? 0x5A))
  || ((0x61 <=? u) && (u <=? 0x7A)).

(** An element that stays an element of its own whatever follows it. *)
Definition scalarShape (e : jsstring) : bool :=
  codePointShape e && negb (loneHigh e) && negb (startsLow e).

Definition markFree (s : jsstring) : bool := forallb (λ u, negb (isMarkUnit u)) s.

Definition letterStyles : list UnicodeStyle :=
  [bold; italic; boldItalic; sansNormal; boldSans; italicSans; boldItalicSans;
   script; monospace; doublestruck].

Definition emphasis_eqb (a b : CharEmphasis) : bool := bool_decide (a = b).

Definition style_eqb (a b : UnicodeStyle) : bool := bool_decide (a = b).

(** What holds of every entry: the key is one ASCII letter or digit; the
    value is one code point outside ASCII, with no combining mark in it;
    [detectCharEmphasis] finds it under its own style, and [reverseMap]
    sends it back to its key. *)
Definition entryOk (e : UnicodeStyle * (jsstring * jsstring)) : bool :=
  match e.2.1 with [c] => isAsciiAlnum c | _ => false end
  && scalarShape e.2.2 && markFree e.2.2 && forallb (λ x, 128 <=? x) e.2.2
  && streq (plain (detectCharEmphasis e.2.2)) e.2.1
  && emphasis_eqb (emphasis (detectCharEmphasis e.2.2)) (emphasisOf e.1)
  && match reverseMap !! e.2.2 with Some p => streq p e.2.1 | None => false end.

(** No code point is the value of two entries. *)
Definition entriesDisjoint : bool :=
  forallb (λ e1, forallb (λ e2,
    implb (streq e1.2.2 e2.2.2) (style_eqb e1.1 e2.1 && streq e1.2.1 e2.2.1))
    styledEntries) styledEntries.

(** The check behind the round trip, for one style and one code unit. *)
Definition roundtripOk (S : UnicodeStyle) (c : Z) : bool :=
  match charMaps_get S with
  | Some m =>
      let v := styleChar m [c] in
      implb (isAsciiAlnum c) (scalarShape v && markFree v && streq (unstyleChar v) [c])
  | None => false
  end.

(** Every entry of the style [name] is detected with emphasis [e]. *)
Definition detectsAs (name : UnicodeStyle) (e : CharEmphasis) : Prop :=
  ∀ p u, (name, (p, u)) ∈ styledEntries → detectCharEmphasis u = mkDetected p e.

(** The characters at the positions of [alphabet] that are not among the
    [exceptions] are styled by the offset rule. *)
Definition offsetRule (S : UnicodeStyle) (alphabet : string) (base : Z)
    (exceptions : string) : Prop :=
  Forall (λ ic, ic.2 ∈ str exceptions
                ∨ toUnicodeStyle [ic.2] S = fromCodePoint (base + Z.of_nat ic.1))
         (imap pair (str alphabet)).

Ltac offset_rule :=
  unfold offsetRule;
  match goal with
  | |- Forall _ ?l => let l' := eval vm_compute in l in change l with l'
  end;
  repeat (apply List.Forall_cons;
          [first [right; vm_compute; reflexivity | left; vm_compute; set_solver]|]);
  apply List.Forall_nil.

(** A line of white space only (the empty line too). *)
Definition blank (line : jsstring) : bool := forallb isWhiteSpace line.

(** A base character with the marks that follow it. *)
Abbreviation group := (jsstring * list jsstring)%type.

(** The characters of a text as the marks before the first base
    character, then the base characters, each with its marks. *)
Fixpoint segment (chars : list jsstring) : list jsstring * list group :=
  match chars with
  | [] => ([], [])
  | c :: rest =>
      let s := segment rest in
      if isCombiningChar c then (c :: s.1, s.2) else ([], (c, s.1) :: s.2)
  end.

Definition flatten (gs : list group) : list jsstring := g ← gs; g.1 :: g.2.

(** What the conversion makes of one base character. *)
Definition convertBase (lookup : MappingLookup) (char : jsstring) : jsstring :=
  let d := detectCharEmphasis char in
  convertTo (targetStyleOf lookup (emphasis d)) (plain d).

(** A mark after the last character read so far joins the last group,
    or the leading marks when there is no group yet. *)
Definition addMark (c : jsstring) (s : list jsstring * list group)
  : list jsstring * list group :=
  match s.2 with
  | [] => (s.1 ++ [c], [])
  | _ :: _ => (s.1, alter (λ g, (g.1, g.2 ++ [c])) (length s.2 - 1)%nat s.2)
  end.

(** The state of the first loop, read against the segmentation. *)
Definition collected (st : list jsstring * gmap Z (list jsstring)) (gs : list group) : Prop :=
  st.1 = gs.*1
  ∧ ∀ i : nat, default [] (st.2 !! Z.of_nat i) = default [] (snd <$> gs !! i).

(** A character of the input: a letter or digit in bold, or a plain one. *)
Inductive piece := boldPiece (c : Z) | plainPiece (c : Z).

Definition pieceOk (p : piece) : Prop :=
  match p with
  | boldPiece c => isAsciiAlnum c = true
  | plainPiece c => 0 ≤ c < 128
  end.

(** The piece as it stands in the input, and as it should stand in the
    output. *)
Definition written (p : piece) : jsstring :=
  match p with
  | boldPiece c => toUnicodeStyle [c] bold
  | plainPiece c => [c]
  end.

Definition expected (p : piece) : jsstring :=
  match p with
  | boldPiece c => toUnicodeStyle [c] boldSans
  | plainPiece c => toUnicodeStyle [c] sansNormal
  end.

Definition expectedDetection (p : piece) : Detected :=
  match p with
  | boldPiece c => mkDetected [c] Em.bold
  | plainPiece c => mkDetected [c] Em.none
  end.

(** Where the output character stands: in the boldSans table for a bold
    piece, in the sansNormal table for a plain letter or digit; any other
    plain character is left as it is. *)
Definition expectedEntry (p : piece) : Prop :=
  match p with
  | boldPiece c => (boldSans, ([c], expected p)) ∈ styledEntries
  | plainPiece c =>
      if isAsciiAlnum c then (sansNormal, ([c], expected p)) ∈ styledEntries
      else expected p = [c]
  end.

Definition detected_eqb (a b : Detected) : bool :=
  streq (plain a) (plain b) && emphasis_eqb (emphasis a) (emphasis b).

Definition entry_inb (name : UnicodeStyle) (p u : jsstring) : bool :=
  existsb (λ e, style_eqb e.1 name && streq e.2.1 p && streq e.2.2 u) styledEntries.

Definition sansLookup : MappingLookup := variantEmphasisMap_get (str "sansNormal").

Definition pieceCheck (c : Z) : bool :=
  implb (isAsciiAlnum c)
    (let p := boldPiece c in
     scalarShape (written p) && negb (isCombiningChar (written p))
     && streq (convertBase sansLookup (written p)) (expected p)
     && scalarShape (expected p)
     && detected_eqb (detectCharEmphasis (expected p)) (expectedDetection p)
     && entry_inb boldSans [c] (expected p)
     && entry_inb sansNormal [c] (expected (plainPiece c)))
  && (let p := plainPiece c in
      scalarShape (written p) && negb (isCombiningChar (written p))
      && streq (convertBase sansLookup (written p)) (expected p)
      && scalarShape (expected p)
      && detected_eqb (detectCharEmphasis (expected p)) (expectedDetection p)
      && (isAsciiAlnum c || streq (expected p) [c])).

Definition isAsciiLetter (u : Z) : bool :=
  ((0x41 <=? u) && (u <=? 0x5A)) || ((0x61 <=? u) && (u <=? 0x7A)).

Definition digitlessStyles : list UnicodeStyle :=
  [italic; boldItalic; italicSans; boldItalicSans; script].

Definition digitCheck (S : UnicodeStyle) (u : Z) : bool :=
  match charMaps_get S with
  | Some m => implb (negb (isAsciiLetter u)) (streq (styleChar m [u]) [u])
  | None => false
  end.

(** What [removeUnicodeFormatting] reads: the code points of the text, after
    the marks are taken out unless they are kept. *)
Definition charsRead (t : jsstring) (keep : bool) : list jsstring :=
  Array_from (if keep then t else removeMarks t).

Definition allLookups : list MappingLookup :=
  inheritedValue :: (ownMapping ∘ snd <$> variantEmphasisMap).

Definition isLetterStyle (s : UnicodeStyle) : bool := existsb (style_eqb s) letterStyles.

Definition convertGroups (lookup : MappingLookup) (gs : list group) : list group :=
  (λ g, (convertBase lookup g.1, g.2)) <$> gs.

Definition bases (t : jsstring) : list jsstring := (segment (Array_from t)).2.*1.

Definition baseCheck (lookup : MappingLookup) (b : jsstring) : bool :=
  let c := convertBase lookup b in
  scalarShape c && negb (isCombiningChar c)
  && streq (convertBase lookup c) c
  && streq (plain (detectCharEmphasis c)) (plain (detectCharEmphasis b)).

Definition targetCheck (lookup : MappingLookup) : bool :=
  match targetStyleOf lookup Em.none with
  | Some (styleTarget s) => isLetterStyle s
  | _ => true
  end.

Definition emphasisCheck (lookup : MappingLookup) (b : jsstring) : bool :=
  emphasis_eqb (emphasis (detectCharEmphasis (convertBase lookup b)))
               (emphasis (detectCharEmphasis b)).

Definition keepingLookups : list MappingLookup :=
  [variantEmphasisMap_get (str "normal"); variantEmphasisMap_get (str "sansNormal")].

(** What the conversion does to one base character, whatever the variant. *)
Definition baseFacts (lookup : MappingLookup) (b : jsstring) : Prop :=
  (convertBase lookup b = b ∨ scalarShape (convertBase lookup b) = true)
  ∧ isCombiningChar (convertBase lookup b) = false
  ∧ convertBase lookup (convertBase lookup b) = convertBase lookup b
  ∧ plain (detectCharEmphasis (convertBase lookup b)) = plain (detectCharEmphasis b).

Definition wellGrouped (gs : list group) : Prop :=
  Forall (λ g, isCombiningChar g.1 = false
               ∧ Forall (λ c, isCombiningChar c = true) g.2) gs.

(** The history holds the content at its index and at most 50 entries. *)
Definition editorOk (st : EditorState) : Prop :=
  is_Some (content st) ∧ history st !! historyIndex st = content st
  ∧ (length (history st) ≤ 50)%nat.

Definition lockedSettings : AppLockSettings :=
  mkSettings true (Some (str "5e88")) [] false after5minutes (Some 1700000000000).

(** A stand-in for the digest, for the instances. *)
Definition saltedPin (pin : jsstring) : jsstring := pin ++ str "npd-salt-2024".

(** The events of the editor that touch the history. *)
Inductive event := editTo (newContent : jsstring) | pressUndo | pressRedo.

Definition handle (st : EditorState) (e : event) : EditorState :=
  match e with
  | editTo newContent => updateContent newContent st
  | pressUndo => undo st
  | pressRedo => redo st
  end.

(** ** Facts about strings *)

Section StringFacts.

Lemma streq_eq (a b : jsstring) : streq a b = true ↔ a = b.
Proof.
  revert b; induction a as [|x a IH]; intros [|y b]; simpl; try (split; congruence).
  rewrite andb_true_iff, Z.eqb_eq, IH. split.
  - intros [-> ->]; reflexivity.
  - intros [= -> ->]; split; reflexivity.
Qed.

Lemma streq_refl (a : jsstring) : streq a a = true.
Proof. apply streq_eq; reflexivity. Qed.

Lemma streq_neq (a b : jsstring) : streq a b = false ↔ a ≠ b.
Proof.
  rewrite <- streq_eq. destruct (streq a b); split; congruence.
Qed.

Lemma join_cons (sep p q : jsstring) (ps : list jsstring) :
  join sep (p :: q :: ps) = p ++ sep ++ join sep (q :: ps).
Proof. reflexivity. Qed.

Lemma join_nil_concat (parts : list jsstring) : join [] parts = concat parts.
Proof.
  induction parts as [|p [|q ps] IH]; simpl in *.
  - reflexivity.
  - rewrite app_nil_r; reflexivity.
  - rewrite IH; reflexivity.
Qed.

Lemma ascii_forallb (P : Z → bool) :
  forallb P asciiCodes = true → ∀ u, 0 ≤ u < 128 → P u = true.
Proof.
  intros HP u Hu. rewrite forallb_forall in HP. apply HP.
  unfold asciiCodes. rewrite <- list_elem_of_In, list_elem_of_fmap.
  exists (Z.to_nat u). split; [lia|].
  rewrite list_elem_of_In, in_seq. lia.
Qed.

(** *** The code-point iterator *)

Lemma Array_from_cons_head (u : Z) (s : jsstring) :
  ∃ e es, Array_from (u :: s) = e :: es ∧ head e = Some u.
Proof.
  destruct s as [|v s]; simpl; [eauto|].
  destruct (isHighSurrogate u && isLowSurrogate v); eauto.
Qed.

Lemma Array_from_unfold (u v : Z) (s : jsstring) :
  Array_from (u :: v :: s) =
  if isHighSurrogate u && isLowSurrogate v
  then [u; v] :: Array_from s else [u] :: Array_from (v :: s).
Proof. reflexivity. Qed.

Lemma Array_from_two_step (P : jsstring → Prop) :
  P [] → (∀ u, P [u]) →
  (∀ u v s, P s → P (v :: s) → P (u :: v :: s)) →
  ∀ s, P s.
Proof.
  intros H0 H1 H2 s.
  assert (P s ∧ ∀ u, P (u :: s)) as [? _]; [|assumption].
  induction s as [|v s [IHs IHc]]; split; auto.
Qed.

Lemma concat_Array_from (s : jsstring) : concat (Array_from s) = s.
Proof.
  induction s as [|u|u v s IH1 IH2] using Array_from_two_step; try reflexivity.
  rewrite Array_from_unfold.
  destruct (isHighSurrogate u && isLowSurrogate v); cbn [concat app].
  - rewrite IH1; reflexivity.
  - rewrite IH2; reflexivity.
Qed.

Lemma Array_from_canonical (s : jsstring) : canonical (Array_from s) = true.
Proof.
  induction s as [|u|u v s IH1 IH2] using Array_from_two_step; [reflexivity| |].
  { cbn. rewrite andb_false_r. reflexivity. }
  rewrite Array_from_unfold.
  destruct (isHighSurrogate u && isLowSurrogate v) eqn:Hpair.
  - simpl. rewrite Hpair, IH1. reflexivity.
  - destruct (Array_from_cons_head v s) as (e & es & Hes & He).
    rewrite Hes in *. change (canonical ([u] :: e :: es)) with
      (true && negb (isHighSurrogate u && startsLow e) && canonical (e :: es)).
    rewrite IH2, andb_true_r. cbn [andb]. apply negb_true_iff.
    destruct e as [|w e]; [discriminate|]. injection He as ->. exact Hpair.
Qed.

Lemma Array_from_concat (es : list jsstring) :
  canonical es = true → Array_from (concat es) = es.
Proof.
  induction es as [|e rest IH]; [reflexivity|].
  cbn [canonical]. rewrite !andb_true_iff, negb_true_iff.
  intros [[Hshape Hlone] Hrest]. specialize (IH Hrest).
  destruct e as [|u [|l [|? ?]]]; try discriminate.
  - (* a single unit *)
    cbn [concat app]. destruct rest as [|e' rest'].
    + reflexivity.
    + destruct e' as [|v e']; [discriminate|].
      cbn [concat app] in *. cbn [loneHigh startsLow] in Hlone.
      rewrite Array_from_unfold, Hlone, IH. reflexivity.
  - (* a surrogate pair *)
    cbn [codePointShape] in Hshape. cbn [concat app].
    rewrite Array_from_unfold, Hshape, IH. reflexivity.
Qed.

End StringFacts.

(** ** Facts about the tables *)

Section TableFacts.

Lemma toUnicodeStyle_letter (text : jsstring) (S : UnicodeStyle) (m : StyleMap) :
  charMaps_get S = Some m →
  toUnicodeStyle text S = concat ((λ u, styleChar m [u]) <$> text).
Proof.
  intros Hm. destruct text as [|u text].
  - simp toUnicodeStyle. reflexivity.
  - destruct S; simp toUnicodeStyle; try (vm_compute in Hm; discriminate Hm);
      rewrite Hm, join_nil_concat; unfold split_units;
      rewrite <- list_fmap_compose; reflexivity.
Qed.

Lemma styledEntries_ok : forallb entryOk styledEntries = true.
Proof. vm_compute. reflexivity. Qed.

Lemma styledEntries_disjoint : entriesDisjoint = true.
Proof. vm_compute. reflexivity. Qed.

Opaque charMaps.

Lemma styledEntries_elem (name : UnicodeStyle) (p u : jsstring) :
  (name, (p, u)) ∈ styledEntries →
  (∃ c, p = [c] ∧ isAsciiAlnum c = true)
  ∧ scalarShape u = true ∧ markFree u = true ∧ forallb (λ x, 128 <=? x) u = true
  ∧ detectCharEmphasis u = mkDetected p (emphasisOf name)
  ∧ reverseMap !! u = Some p.
Proof.
  intros Hin. apply list_elem_of_In in Hin.
  pose proof (proj1 (forallb_forall _ _) styledEntries_ok _ Hin) as Hok.
  unfold entryOk in Hok. cbn [fst snd] in Hok. rewrite !andb_true_iff in Hok.
  destruct Hok as ((((((Hkey & Hshape) & Hmark) & Hhigh) & Hplain) & Hemph) & Hrev).
  repeat split; [|exact Hshape|exact Hmark|exact Hhigh| |].
  - destruct p as [|c [|? ?]]; [discriminate Hkey| |discriminate Hkey]. eauto.
  - apply streq_eq in Hplain. apply bool_decide_eq_true in Hemph.
    destruct (detectCharEmphasis u) as [p' e']. cbn [plain emphasis] in *.
    subst. reflexivity.
  - destruct (reverseMap !! u) as [p'|]; [|discriminate Hrev].
    apply streq_eq in Hrev. subst. reflexivity.
Qed.

Lemma styledEntries_inj (n1 n2 : UnicodeStyle) (p1 p2 u : jsstring) :
  (n1, (p1, u)) ∈ styledEntries → (n2, (p2, u)) ∈ styledEntries →
  n1 = n2 ∧ p1 = p2.
Proof.
  intros H1 H2. apply list_elem_of_In in H1, H2.
  pose proof styledEntries_disjoint as Hd. unfold entriesDisjoint in Hd.
  pose proof (proj1 (forallb_forall _ _)
                (proj1 (forallb_forall _ _) Hd _ H1) _ H2) as Hpair.
  cbn [fst snd] in Hpair. rewrite streq_refl in Hpair. cbn [implb] in Hpair.
  apply andb_true_iff in Hpair as [Hn Hp].
  apply bool_decide_eq_true in Hn. apply streq_eq in Hp. auto.
Qed.

(** *** The reverse map holds exactly the entries *)

Lemma addEntries_lookup (caseMap : Obj) (m : gmap jsstring jsstring) (k v : jsstring) :
  addEntries caseMap m !! k = Some v → m !! k = Some v ∨ (v, k) ∈ caseMap.
Proof.
  unfold addEntries. revert m.
  induction caseMap as [|[p u] rest IH]; intros m; cbn [foldl fst snd]; [auto|].
  intros [Hm|Hin]%IH; [|right; by right].
  destruct (decide (u = k)) as [->|Hne].
  - rewrite lookup_insert_eq in Hm. injection Hm as ->. right; left.
  - rewrite lookup_insert_ne in Hm by done. by left.
Qed.

Lemma addStyle_lookup (sm : StyleMap) (m : gmap jsstring jsstring) (k v : jsstring) :
  addStyle m sm !! k = Some v → m !! k = Some v ∨ (v, k) ∈ entriesOf sm.
Proof.
  unfold addStyle, entriesOf. intros H.
  assert (addEntries (lower sm) (addEntries (upper sm) m) !! k = Some v
          ∨ (v, k) ∈ default [] (digits sm)) as [H2|H2].
  { destruct (digits sm) as [d|]; [by apply addEntries_lookup | by left]. }
  - apply addEntries_lookup in H2 as [H2|H2].
    + apply addEntries_lookup in H2 as [H2|H2]; [by left|].
      right. rewrite !elem_of_app. auto.
    + right. rewrite !elem_of_app. auto.
  - right. rewrite !elem_of_app. auto.
Qed.

Lemma foldl_addStyle_lookup (maps : list (UnicodeStyle * StyleMap))
    (m : gmap jsstring jsstring) (k v : jsstring) :
  foldl addStyle m (snd <$> maps) !! k = Some v →
  m !! k = Some v ∨ ∃ nsm, nsm ∈ maps ∧ (v, k) ∈ entriesOf nsm.2.
Proof.
  revert m. induction maps as [|nsm maps IH]; intros m; cbn [fmap list_fmap foldl]; [auto|].
  intros [Hm|(nsm' & Hin & He)]%IH.
  - apply addStyle_lookup in Hm as [Hm|Hm]; [by left|].
    right. exists nsm. split; [left | done].
  - right. exists nsm'. split; [by right | done].
Qed.

Lemma reverseMap_lookup (k v : jsstring) :
  reverseMap !! k = Some v → ∃ name, (name, (v, k)) ∈ styledEntries.
Proof.
  unfold reverseMap. intros [Hm|(nsm & Hin & He)]%foldl_addStyle_lookup.
  - rewrite lookup_empty in Hm. discriminate.
  - exists nsm.1. unfold styledEntries. apply list_elem_of_bind.
    exists nsm. split; [|done]. apply list_elem_of_fmap. by exists (v, k).
Qed.

Opaque reverseMap styledEntries.

(** *** [unstyleChar] *)

Lemma unstyleChar_cases (e : jsstring) :
  (reverseMap !! e = None ∧ unstyleChar e = e)
  ∨ (∃ c, isAsciiAlnum c = true ∧ unstyleChar e = [c] ∧ reverseMap !! e = Some [c]).
Proof.
  unfold unstyleChar. pose proof (reverseMap_lookup e) as Hl. revert Hl.
  generalize (reverseMap !! e). intros [p|] Hl.
  - right. destruct (Hl p eq_refl) as [name Hin].
    destruct (styledEntries_elem _ _ _ Hin) as ((c & -> & Hc) & _).
    exists c. split; [exact Hc | split; reflexivity].
  - left. split; reflexivity.
Qed.

Lemma reverseMap_ascii (c : Z) : c < 128 → reverseMap !! [c] = None.
Proof.
  intros Hc. destruct (reverseMap !! [c]) as [p|] eqn:Hp; [|done].
  destruct (reverseMap_lookup _ _ Hp) as [name Hin].
  destruct (styledEntries_elem _ _ _ Hin) as (_ & _ & _ & Hhi & _).
  cbn in Hhi. rewrite andb_true_r in Hhi. apply Z.leb_le in Hhi. lia.
Qed.

Lemma isAsciiAlnum_range (c : Z) : isAsciiAlnum c = true → 0 ≤ c < 128.
Proof. unfold isAsciiAlnum. lia. Qed.

Lemma unstyleChar_idem (e : jsstring) : unstyleChar (unstyleChar e) = unstyleChar e.
Proof.
  destruct (unstyleChar_cases e) as [[_ He]|(c & Hc & He & _)]; rewrite !He; [reflexivity|].
  apply isAsciiAlnum_range in Hc.
  unfold unstyleChar. rewrite reverseMap_ascii by lia. reflexivity.
Qed.

End TableFacts.

(** ** Removing the styling *)

Section Removal.

Lemma markFree_removeMarks (text : jsstring) : markFree (removeMarks text) = true.
Proof.
  unfold markFree, removeMarks. apply forallb_forall.
  intros u [_ Hu]%filter_In. exact Hu.
Qed.

Lemma removeMarks_id (s : jsstring) : markFree s = true → removeMarks s = s.
Proof.
  unfold markFree, removeMarks. induction s as [|u s IH]; [reflexivity|].
  cbn [forallb List.filter]. intros [Hu Hs]%andb_true_iff.
  rewrite Hu, IH by exact Hs. reflexivity.
Qed.

Lemma markFree_concat (es : list jsstring) :
  markFree (concat es) = forallb markFree es.
Proof.
  unfold markFree. induction es as [|e es IH]; [reflexivity|].
  cbn [concat forallb]. rewrite forallb_app, IH. reflexivity.
Qed.

Lemma alnum_not_surrogate (c : Z) :
  isAsciiAlnum c = true → isHighSurrogate c = false ∧ isLowSurrogate c = false.
Proof. unfold isAsciiAlnum, isHighSurrogate, isLowSurrogate. lia. Qed.

Lemma alnum_markFree (c : Z) : isAsciiAlnum c = true → markFree [c] = true.
Proof.
  unfold isAsciiAlnum, markFree, isMarkUnit, COMBINING_UNDERLINE, COMBINING_STRIKETHROUGH.
  cbn [forallb streq]. lia.
Qed.

(** Replacing elements by themselves or by one ASCII letter or digit keeps
    a segmentation canonical. *)
Lemma canonical_fmap (f : jsstring → jsstring) (es : list jsstring) :
  (∀ e, f e = e ∨ ∃ c, isAsciiAlnum c = true ∧ f e = [c]) →
  canonical es = true → canonical (f <$> es) = true.
Proof.
  intros Hf. induction es as [|e rest IH]; [reflexivity|].
  cbn [canonical fmap list_fmap]. rewrite !andb_true_iff, !negb_true_iff.
  intros [[Hshape Hlone] Hrest]. specialize (IH Hrest).
  destruct (Hf e) as [->|(c & Hc & ->)].
  - repeat split; [exact Hshape| |exact IH].
    destruct (loneHigh e); [|reflexivity]. cbn [andb] in *.
    destruct rest as [|e' rest']; [reflexivity|]. cbn [fmap list_fmap].
    destruct (Hf e') as [->|(c & Hc & ->)]; [exact Hlone|].
    apply alnum_not_surrogate in Hc as [_ Hlow]. exact Hlow.
  - repeat split; [|exact IH].
    apply alnum_not_surrogate in Hc as [Hhigh _].
    cbn [loneHigh]. rewrite Hhigh. reflexivity.
Qed.

Lemma unstyleChar_shape (e : jsstring) :
  unstyleChar e = e ∨ ∃ c, isAsciiAlnum c = true ∧ unstyleChar e = [c].
Proof.
  destruct (unstyleChar_cases e) as [[_ He]|(c & Hc & He & _)]; [by left|].
  right. exists c. auto.
Qed.

Lemma markFree_unstyleChar (e : jsstring) :
  markFree e = true → markFree (unstyleChar e) = true.
Proof.
  intros He. destruct (unstyleChar_shape e) as [->|(c & Hc & ->)]; [exact He|].
  by apply alnum_markFree.
Qed.

(** What one pass yields is left alone by the next pass. *)
Lemma unstyle_pass_stable (es : list jsstring) :
  canonical es = true → forallb markFree es = true →
  removeUnicodeFormatting (concat (unstyleChar <$> es)) false
  = concat (unstyleChar <$> es).
Proof.
  intros Hcanon Hfree. unfold removeUnicodeFormatting.
  rewrite removeMarks_id.
  - rewrite Array_from_concat by (apply canonical_fmap; auto using unstyleChar_shape).
    rewrite join_nil_concat, <- list_fmap_compose. f_equal.
    apply list_fmap_ext. intros _ e _. apply unstyleChar_idem.
  - rewrite markFree_concat. apply forallb_forall.
    intros e' [e [<- He]]%in_map_iff. apply markFree_unstyleChar.
    exact (proj1 (forallb_forall _ _) Hfree e He).
Qed.

End Removal.

(** ** Round trip and idempotence *)

Section RoundTrip.

Lemma roundtripOk_all :
  forallb (λ S, forallb (roundtripOk S) asciiCodes) letterStyles = true.
Proof. vm_compute. reflexivity. Qed.

Lemma styleChar_alnum (S : UnicodeStyle) (c : Z) :
  S ∈ letterStyles → isAsciiAlnum c = true →
  ∃ m, charMaps_get S = Some m
       ∧ scalarShape (styleChar m [c]) = true
       ∧ markFree (styleChar m [c]) = true
       ∧ unstyleChar (styleChar m [c]) = [c].
Proof.
  intros HS Hc. apply list_elem_of_In in HS.
  pose proof (proj1 (forallb_forall _ _) roundtripOk_all S HS) as HSok.
  pose proof (ascii_forallb _ HSok c (isAsciiAlnum_range c Hc)) as Hok.
  unfold roundtripOk in Hok. destruct (charMaps_get S) as [m|]; [|discriminate Hok].
  exists m. rewrite Hc in Hok. cbn [implb] in Hok.
  rewrite !andb_true_iff, streq_eq in Hok. destruct Hok as [[? ?] ?]. auto.
Qed.

Lemma scalar_canonical (es : list jsstring) :
  forallb scalarShape es = true → canonical es = true.
Proof.
  induction es as [|e rest IH]; [reflexivity|].
  cbn [forallb canonical]. unfold scalarShape at 1.
  rewrite !andb_true_iff, !negb_true_iff. intros [[[Hs Hl] _] Hrest].
  rewrite Hl. auto.
Qed.

End RoundTrip.

(** C1. For a text of ASCII letters and digits and a style that only
    substitutes letters and digits (bold, italic, boldItalic, sansNormal,
    boldSans, italicSans, boldItalicSans, script, monospace, doublestruck),
    removing the formatting of the styled text, with the default
    [preserveCombining = false], gives the text back. *)
Theorem strip_apply_roundtrip (text : jsstring) (S : UnicodeStyle) :
  Forall (λ u, isAsciiAlnum u = true) text →
  S ∈ letterStyles →
  removeUnicodeFormatting (toUnicodeStyle text S) false = text.
Proof.
  intros Htext HS.
  destruct text as [|u0 text0] eqn:Etext.
  { simp toUnicodeStyle. reflexivity. }
  rewrite <- Etext in *. clear Etext u0 text0.
  destruct (styleChar_alnum S 0x41 HS eq_refl) as (m & Hm & _).
  rewrite (toUnicodeStyle_letter _ _ _ Hm).
  assert (Forall (λ u, scalarShape (styleChar m [u]) = true
                       ∧ markFree (styleChar m [u]) = true
                       ∧ unstyleChar (styleChar m [u]) = [u]) text) as Hall.
  { eapply Forall_impl; [exact Htext|]. intros u Hu. cbn beta in *.
    destruct (styleChar_alnum S u HS Hu) as (m' & Hm' & H1 & H2 & H3).
    rewrite Hm in Hm'. injection Hm' as <-. auto. }
  unfold removeUnicodeFormatting. rewrite removeMarks_id.
  - rewrite Array_from_concat, join_nil_concat.
    + rewrite <- list_fmap_compose.
      clear Htext. induction Hall as [|u rest (_ & _ & Hu) _ IH]; [reflexivity|].
      cbn [fmap list_fmap concat compose]. rewrite Hu. cbn [app]. f_equal. exact IH.
    + apply scalar_canonical, forallb_forall.
      intros e [u [<- Hu]]%in_map_iff.
      rewrite Forall_forall in Hall. apply list_elem_of_In in Hu.
      apply (Hall u Hu).
  - rewrite markFree_concat. apply forallb_forall.
    intros e [u [<- Hu]]%in_map_iff.
    rewrite Forall_forall in Hall. apply list_elem_of_In in Hu.
    apply (Hall u Hu).
Qed.

Lemma strip_apply_roundtrip_witness :
  Forall (λ u, isAsciiAlnum u = true) (str "Planck9h")
  ∧ italic ∈ letterStyles
  ∧ removeUnicodeFormatting (toUnicodeStyle (str "Planck9h") italic) false = str "Planck9h".
Proof.
  assert (Forall (λ u, isAsciiAlnum u = true) (str "Planck9h")) as Htext.
  { repeat constructor. }
  assert (italic ∈ letterStyles) as Hstyle.
  { unfold letterStyles. set_solver. }
  split; [exact Htext|]. split; [exact Hstyle|].
  exact (strip_apply_roundtrip (str "Planck9h") italic Htext Hstyle).
Defined.

(** C10. Removing the formatting, with the default
    [preserveCombining = false], is idempotent on every string. *)
Theorem removeUnicodeFormatting_idempotent (t : jsstring) :
  removeUnicodeFormatting (removeUnicodeFormatting t false) false
  = removeUnicodeFormatting t false.
Proof.
  assert (removeUnicodeFormatting t false
          = concat (unstyleChar <$> Array_from (removeMarks t))) as ->.
  { unfold removeUnicodeFormatting. apply join_nil_concat. }
  apply unstyle_pass_stable.
  - apply Array_from_canonical.
  - rewrite <- markFree_concat, concat_Array_from. apply markFree_removeMarks.
Qed.

(** ** Emphasis detection *)

Section Detection.

Lemma scanCaseMap_elem (char : jsstring) (caseMap : Obj) (p : jsstring) :
  scanCaseMap char caseMap = Some p → (p, char) ∈ caseMap.
Proof.
  induction caseMap as [|[q u] rest IH]; cbn [scanCaseMap]; [discriminate|].
  destruct (streq char u) eqn:Hu.
  - intros [= ->]. apply streq_eq in Hu as ->. left.
  - intros H. right. by apply IH.
Qed.

Lemma scanCaseMaps_elem (char : jsstring) (sm : StyleMap) (p : jsstring) :
  scanCaseMaps char [Some (upper sm); Some (lower sm); digits sm] = Some p →
  (p, char) ∈ entriesOf sm.
Proof.
  unfold entriesOf. cbn [scanCaseMaps]. rewrite !elem_of_app.
  destruct (scanCaseMap char (upper sm)) as [q|] eqn:Hu.
  { intros [= ->]. left. by apply scanCaseMap_elem. }
  destruct (scanCaseMap char (lower sm)) as [q|] eqn:Hl.
  { intros [= ->]. right; left. by apply scanCaseMap_elem. }
  destruct (digits sm) as [d|]; [|discriminate].
  destruct (scanCaseMap char d) as [q|] eqn:Hd; [|discriminate].
  intros [= ->]. right; right. by apply scanCaseMap_elem.
Qed.

Lemma scanStyles_elem (char : jsstring) (maps : list (UnicodeStyle * StyleMap)) (d : Detected) :
  scanStyles char maps = Some d →
  ∃ nsm, nsm ∈ maps ∧ (plain d, char) ∈ entriesOf nsm.2.
Proof.
  induction maps as [|[name sm] rest IH]; cbn [scanStyles]; [discriminate|].
  destruct (scanCaseMaps char _) as [p|] eqn:Hp.
  - intros [= <-]. exists (name, sm). split; [left|]. by apply scanCaseMaps_elem.
  - intros (nsm & Hin & He)%IH. exists nsm. split; [by right | done].
Qed.

(** A character that is the value of no entry is reported as it is. *)
Lemma detectCharEmphasis_unmapped (char : jsstring) :
  (∀ name p, (name, (p, char)) ∉ styledEntries) →
  detectCharEmphasis char = mkDetected char Em.none.
Proof.
  intros Hno. unfold detectCharEmphasis.
  destruct (scanStyles char charMaps) as [d|] eqn:Hd; [|reflexivity].
  exfalso. apply scanStyles_elem in Hd as (nsm & Hin & He).
  apply (Hno nsm.1 (plain d)). apply list_elem_of_bind.
  exists nsm. split; [|done]. apply list_elem_of_fmap. by exists (plain d, char).
Qed.

Lemma detectCharEmphasis_ascii (c : Z) :
  c < 128 → detectCharEmphasis [c] = mkDetected [c] Em.none.
Proof.
  intros Hc. apply detectCharEmphasis_unmapped. intros name p Hin.
  destruct (styledEntries_elem _ _ _ Hin) as (_ & _ & _ & Hhi & _).
  cbn in Hhi. rewrite andb_true_r in Hhi. apply Z.leb_le in Hhi. lia.
Qed.

End Detection.

(** ** The tables *)

Section Tables.

Lemma styledEntries_charMaps (name : UnicodeStyle) (sm : StyleMap) (p u : jsstring) :
  (name, sm) ∈ charMaps → (p, u) ∈ entriesOf sm → (name, (p, u)) ∈ styledEntries.
Proof.
  intros Hsm He. unfold styledEntries. apply list_elem_of_bind.
  exists (name, sm). split; [|exact Hsm]. apply list_elem_of_fmap. by exists (p, u).
Qed.

Lemma styledEntries_member (name : UnicodeStyle) (p u : jsstring) :
  entry_inb name p u = true →
  (name, (p, u)) ∈ styledEntries.
Proof.
  unfold entry_inb. intros [[n [q v]] [Hin He]]%existsb_exists. cbn [fst snd] in He.
  rewrite !andb_true_iff, !streq_eq in He. destruct He as [[Hn ->] ->].
  apply bool_decide_eq_true in Hn as ->. by apply list_elem_of_In.
Qed.

Lemma detectsAs_emphasisOf (name : UnicodeStyle) : detectsAs name (emphasisOf name).
Proof. intros p u Hin. apply (styledEntries_elem _ _ _ Hin). Qed.

End Tables.

(** C6. [detectCharEmphasis] puts the characters of the boldSans, italicSans
    and boldItalicSans tables in the buckets of bold, italic and boldItalic,
    those of the script, monospace and doublestruck tables in [none], and
    plain ASCII or unmapped characters in [none] too. *)
Theorem detectCharEmphasis_buckets :
  (detectsAs boldSans Em.bold ∧ detectsAs bold Em.bold)
  ∧ (detectsAs italicSans Em.italic ∧ detectsAs italic Em.italic)
  ∧ (detectsAs boldItalicSans Em.boldItalic ∧ detectsAs boldItalic Em.boldItalic)
  ∧ (detectsAs script Em.none ∧ detectsAs monospace Em.none ∧ detectsAs doublestruck Em.none)
  ∧ (∀ c, 0 ≤ c < 128 → detectCharEmphasis [c] = mkDetected [c] Em.none)
  ∧ (∀ char, (∀ name p, (name, (p, char)) ∉ styledEntries) →
             detectCharEmphasis char = mkDetected char Em.none).
Proof.
  repeat split; try apply detectsAs_emphasisOf.
  - intros c Hc. apply detectCharEmphasis_ascii. lia.
  - apply detectCharEmphasis_unmapped.
Qed.

Lemma detectCharEmphasis_buckets_witness :
  detectCharEmphasis (fromCodePoint 0x1D5D4) = mkDetected (str "A") Em.bold
  ∧ detectCharEmphasis (fromCodePoint 0x1D4AB) = mkDetected (str "P") Em.none
  ∧ detectCharEmphasis (str "a") = mkDetected (str "a") Em.none.
Proof.
  destruct detectCharEmphasis_buckets as ((Hsans & _) & _ & _ & (Hscript & _) & Hascii & _).
  split; [|split].
  - apply Hsans, styledEntries_member. vm_compute. reflexivity.
  - apply Hscript, styledEntries_member. vm_compute. reflexivity.
  - apply (Hascii 97). lia.
Defined.

(** C7. The tables follow the offset rule with fixed exceptions: italic
    [h] is the Planck constant U+210E, not the code point at the italic
    offset; the script capitals B, E, F, H, I, L, M, R and the script small
    e, g, o are the letterlike symbols of the Basic Multilingual Plane, not
    the code points at the script offsets. *)
Theorem tables_offsets_with_exceptions :
  toUnicodeStyle (str "h") italic = [0x210E]
  ∧ fromCodePoint (0x1D44E + 7) = [0xD835; 0xDC55]
  ∧ toUnicodeStyle (str "BEFHILMR") script
    = [0x212C; 0x2130; 0x2131; 0x210B; 0x2110; 0x2112; 0x2133; 0x211B]
  ∧ toUnicodeStyle (str "ego") script = [0x212F; 0x210A; 0x2134]
  ∧ offsetRule italic UPPER 0x1D434 "" ∧ offsetRule italic LOWER 0x1D44E "h"
  ∧ offsetRule script UPPER 0x1D49C "BEFHILMR" ∧ offsetRule script LOWER 0x1D4B6 "ego"
  ∧ offsetRule doublestruck UPPER 0x1D538 "CHNPQRZ" ∧ offsetRule doublestruck LOWER 0x1D552 ""
  ∧ offsetRule doublestruck DIGITS 0x1D7D8 ""
  ∧ offsetRule bold UPPER 0x1D400 "" ∧ offsetRule bold LOWER 0x1D41A ""
  ∧ offsetRule bold DIGITS 0x1D7CE ""
  ∧ offsetRule boldItalic UPPER 0x1D468 "" ∧ offsetRule boldItalic LOWER 0x1D482 ""
  ∧ offsetRule boldSans UPPER 0x1D5D4 "" ∧ offsetRule boldSans LOWER 0x1D5EE ""
  ∧ offsetRule boldSans DIGITS 0x1D7EC ""
  ∧ offsetRule sansNormal UPPER 0x1D5A0 "" ∧ offsetRule sansNormal LOWER 0x1D5BA ""
  ∧ offsetRule sansNormal DIGITS 0x1D7E2 ""
  ∧ offsetRule italicSans UPPER 0x1D608 "" ∧ offsetRule italicSans LOWER 0x1D622 ""
  ∧ offsetRule boldItalicSans UPPER 0x1D63C "" ∧ offsetRule boldItalicSans LOWER 0x1D656 ""
  ∧ offsetRule monospace UPPER 0x1D670 "" ∧ offsetRule monospace LOWER 0x1D68A ""
  ∧ offsetRule monospace DIGITS 0x1D7F6 "".
Proof.
  do 4 (split; [vm_compute; reflexivity|]).
  repeat (split; [offset_rule|]). offset_rule.
Qed.

(** C8. Each table is injective, no code point is the value of two entries
    of any tables, and the reverse table sends every styled code point back
    to the one ASCII character it comes from. *)
Theorem style_tables_injective :
  (∀ name sm p1 p2 u,
      (name, sm) ∈ charMaps → (p1, u) ∈ entriesOf sm → (p2, u) ∈ entriesOf sm → p1 = p2)
  ∧ (∀ n1 n2 p1 p2 u,
        (n1, (p1, u)) ∈ styledEntries → (n2, (p2, u)) ∈ styledEntries → n1 = n2 ∧ p1 = p2)
  ∧ (∀ name p u, (name, (p, u)) ∈ styledEntries → reverseMap !! u = Some p)
  ∧ (∀ p u, reverseMap !! u = Some p → ∃ name, (name, (p, u)) ∈ styledEntries).
Proof.
  split; [|split; [|split]].
  - intros name sm p1 p2 u Hsm H1 H2.
    apply (styledEntries_inj name name p1 p2 u); by apply (styledEntries_charMaps name sm).
  - intros n1 n2 p1 p2 u. apply styledEntries_inj.
  - intros name p u Hin. apply (styledEntries_elem _ _ _ Hin).
  - intros p u. apply reverseMap_lookup.
Qed.

Lemma style_tables_injective_witness :
  reverseMap !! [0x210E] = Some (str "h")
  ∧ ∀ name p, (name, (p, [0x210E])) ∈ styledEntries → name = italic ∧ p = str "h".
Proof.
  destruct style_tables_injective as (_ & Hinj & Hrev & _).
  assert ((italic, (str "h", [0x210E])) ∈ styledEntries) as Hh.
  { apply styledEntries_member. vm_compute. reflexivity. }
  split.
  - exact (Hrev _ _ _ Hh).
  - intros name p Hin. exact (Hinj _ _ _ _ _ Hin Hh).
Defined.

(** ** List formatters *)

Section Lists.

Lemma trimStart_split (s : jsstring) :
  ∃ pre, s = pre ++ trimStart s ∧ blank pre = true.
Proof.
  induction s as [|u s (pre & Hs & Hpre)]; [by exists []|].
  cbn [trimStart]. destruct (isWhiteSpace u) eqn:Hu.
  - exists (u :: pre). cbn [app blank forallb]. rewrite Hu. split; [by f_equal|exact Hpre].
  - by exists [].
Qed.

Lemma trimStart_head (s : jsstring) (u : Z) :
  head (trimStart s) = Some u → isWhiteSpace u = false.
Proof.
  induction s as [|v s IH]; [discriminate|].
  cbn [trimStart]. destruct (isWhiteSpace v) eqn:Hv; [exact IH|].
  intros [= <-]. exact Hv.
Qed.

Lemma trimStart_blank (s : jsstring) : blank s = true → trimStart s = [].
Proof.
  induction s as [|u s IH]; [reflexivity|].
  cbn [blank forallb trimStart]. intros [-> Hs]%andb_true_iff. by apply IH.
Qed.

Lemma blank_app (a b : jsstring) : blank (a ++ b) = blank a && blank b.
Proof. apply forallb_app. Qed.

Lemma blank_reverse (a : jsstring) : blank (reverse a) = blank a.
Proof.
  induction a as [|u a IH]; [reflexivity|].
  rewrite reverse_cons, blank_app, IH. cbn [blank forallb].
  rewrite andb_true_r. apply andb_comm.
Qed.

(** [trim] takes a blank prefix and a blank suffix away, and what is
    left neither starts nor ends with white space. *)
Lemma trim_split (s : jsstring) :
  ∃ pre post, s = pre ++ trim s ++ post ∧ blank pre = true ∧ blank post = true.
Proof.
  destruct (trimStart_split s) as (pre & Hs & Hpre).
  destruct (trimStart_split (reverse (trimStart s))) as (tsop & Hr & Hpost).
  exists pre, (reverse tsop). unfold trim. repeat split.
  - rewrite <- reverse_app, <- Hr, reverse_involutive. exact Hs.
  - exact Hpre.
  - rewrite blank_reverse. exact Hpost.
Qed.

Lemma trim_last (s : jsstring) (u : Z) :
  last (trim s) = Some u → isWhiteSpace u = false.
Proof.
  unfold trim. rewrite last_reverse. apply trimStart_head.
Qed.

Lemma trim_head (s : jsstring) (u : Z) :
  head (trim s) = Some u → isWhiteSpace u = false.
Proof.
  intros Hu. apply (trimStart_head s).
  destruct (trimStart_split (reverse (trimStart s))) as (tsop & Hr & _).
  apply (f_equal reverse) in Hr. rewrite reverse_involutive, reverse_app in Hr.
  fold (trim s) in Hr. rewrite Hr.
  destruct (trim s) as [|v t]; [discriminate|]. exact Hu.
Qed.

Lemma trim_nil_blank (s : jsstring) : trim s = [] ↔ blank s = true.
Proof.
  split.
  - intros Ht. destruct (trim_split s) as (pre & post & Hs & Hpre & Hpost).
    rewrite Hs, Ht, !blank_app, Hpre, Hpost. reflexivity.
  - intros Hs. unfold trim. rewrite (trimStart_blank s Hs). reflexivity.
Qed.

(** The filter of the source, [line => line.trim()], keeps the lines that
    are not blank. *)
Lemma keptLines_not_blank (text : jsstring) :
  keptLines text = List.filter (λ line, negb (blank line)) (split_newline text).
Proof.
  unfold keptLines. apply filter_ext. intros line.
  destruct (blank line) eqn:Hb.
  - apply trim_nil_blank in Hb. rewrite Hb. reflexivity.
  - destruct (trim line) as [|u t] eqn:Ht.
    + apply trim_nil_blank in Ht. congruence.
    + reflexivity.
Qed.

Lemma split_newline_cons (s : jsstring) : ∃ line lines, split_newline s = line :: lines.
Proof.
  destruct s as [|u s]; cbn [split_newline]; [eauto|].
  destruct (u =? 10); [eauto|]. destruct (split_newline s); eauto.
Qed.

(** Splitting on the newline: joining the lines with a newline gives
    the text back, and no line holds a newline. *)
Lemma join_split_newline (s : jsstring) : join NEWLINE (split_newline s) = s.
Proof.
  induction s as [|u s IH]; [reflexivity|].
  cbn [split_newline]. destruct (split_newline_cons s) as (line & lines & Hs).
  rewrite Hs in *. destruct (u =? 10) eqn:Hu.
  - apply Z.eqb_eq in Hu as ->. rewrite join_cons, IH. reflexivity.
  - destruct lines as [|l2 lines]; [cbn [join] in *; by f_equal|].
    rewrite join_cons in *. rewrite <- IH. reflexivity.
Qed.

Lemma split_newline_lines (s : jsstring) :
  Forall (λ line, 0x0A ∉ line) (split_newline s).
Proof.
  induction s as [|u s IH].
  - repeat constructor. apply not_elem_of_nil.
  - cbn [split_newline]. destruct (split_newline_cons s) as (line & lines & Hs).
    rewrite Hs in *. apply Forall_cons in IH as [Hline Hlines].
    destruct (u =? 10) eqn:Hu.
    + repeat constructor; [apply not_elem_of_nil|exact Hline|exact Hlines].
    + constructor; [|exact Hlines]. apply Z.eqb_neq in Hu.
      rewrite not_elem_of_cons. auto.
Qed.

End Lists.

(** C9. Each list formatter splits the text on newlines, drops the blank
    lines, trims the remaining lines and puts its marker and a space before
    each; the numbered list counts the remaining lines from 1.  Two
    instances: a blank line is dropped from a bullet list, and three lines
    are numbered 1, 2, 3. *)
Theorem list_formatters (text : jsstring) :
  let lines := split_newline text in
  let remaining := List.filter (λ line, negb (blank line)) lines in
  (join NEWLINE lines = text ∧ Forall (λ line, 0x0A ∉ line) lines)
  ∧ (∀ line, (trim line = [] ↔ blank line = true)
             ∧ (∃ pre post, line = pre ++ trim line ++ post
                            ∧ blank pre = true ∧ blank post = true)
             ∧ (∀ u, head (trim line) = Some u ∨ last (trim line) = Some u →
                     isWhiteSpace u = false))
  ∧ toBulletList text = join NEWLINE ((λ line, [0x2022; 0x20] ++ trim line) <$> remaining)
  ∧ toCheckboxList text = join NEWLINE ((λ line, [0x2610; 0x20] ++ trim line) <$> remaining)
  ∧ toAscendingList text = join NEWLINE ((λ line, [0x2197; 0x20] ++ trim line) <$> remaining)
  ∧ toDescendingList text = join NEWLINE ((λ line, [0x2198; 0x20] ++ trim line) <$> remaining)
  ∧ toNumberedList text
    = join NEWLINE (imap (λ i line, numberToString (S i) ++ str ". " ++ trim line) remaining)
  ∧ toBulletList (str "a" ++ NEWLINE ++ NEWLINE ++ str "b")
    = [0x2022] ++ str " a" ++ NEWLINE ++ [0x2022] ++ str " b"
  ∧ toNumberedList (str "x" ++ NEWLINE ++ str "y" ++ NEWLINE ++ str "z")
    = str "1. x" ++ NEWLINE ++ str "2. y" ++ NEWLINE ++ str "3. z".
Proof.
  cbv zeta. split; [|split].
  - split; [apply join_split_newline | apply split_newline_lines].
  - intros line. split; [apply trim_nil_blank|]. split; [apply trim_split|].
    intros u [Hu|Hu]; [by apply (trim_head line) | by apply (trim_last line)].
  - unfold toBulletList, toCheckboxList, toAscendingList, toDescendingList,
      toNumberedList, markerList.
    rewrite keptLines_not_blank.
    do 4 (split; [reflexivity|]).
    split; [|split; vm_compute; reflexivity].
    f_equal. apply imap_ext. intros i line _. cbn beta.
    replace (i + 1)%nat with (S i) by lia. reflexivity.
Qed.

(** ** Conversion between variants *)

Section Conversion.

Lemma segment_flatten (chars : list jsstring) :
  chars = (segment chars).1 ++ flatten (segment chars).2.
Proof.
  unfold flatten. induction chars as [|c rest IH]; [reflexivity|].
  cbn [segment]. destruct (isCombiningChar c); cbn [fst snd app].
  - by f_equal.
  - rewrite bind_cons. cbn [fst snd app]. by f_equal.
Qed.

Lemma segment_marks (chars : list jsstring) :
  Forall (λ c, isCombiningChar c = true) (segment chars).1
  ∧ Forall (λ g, isCombiningChar g.1 = false
                 ∧ Forall (λ c, isCombiningChar c = true) g.2) (segment chars).2.
Proof.
  induction chars as [|c rest [IH1 IH2]]; [by split; constructor|].
  cbn [segment]. destruct (isCombiningChar c) eqn:Hc; cbn [fst snd].
  - split; [by constructor | exact IH2].
  - split; [constructor|]. constructor; [split|]; assumption.
Qed.

Lemma segment_snoc (chars : list jsstring) (c : jsstring) :
  segment (chars ++ [c]) =
  if isCombiningChar c then addMark c (segment chars)
  else ((segment chars).1, (segment chars).2 ++ [(c, [])]).
Proof.
  induction chars as [|a rest IH].
  - cbn [app segment]. unfold addMark. by destruct (isCombiningChar c).
  - cbn [app segment]. rewrite IH. clear IH.
    destruct (segment rest) as [lead gs].
    destruct (isCombiningChar c), (isCombiningChar a); cbn [fst snd]; try reflexivity.
    + unfold addMark. by destruct gs.
    + unfold addMark. destruct gs as [|g gs]; cbn [fst snd]; [reflexivity|].
      replace (length ((a, lead) :: g :: gs) - 1)%nat
        with (S (length (g :: gs) - 1)) by (cbn [length]; lia).
      reflexivity.
Qed.

Lemma collectChar_collected (chars : list jsstring) :
  collected (foldl collectChar ([], ∅) chars) (segment chars).2.
Proof.
  induction chars as [|c chars [IH1 IH2]] using rev_ind.
  { split; [reflexivity|]. intros i. cbn [foldl fst snd]. by rewrite lookup_empty. }
  rewrite foldl_snoc, segment_snoc.
  destruct (foldl collectChar ([], ∅) chars) as [clean M].
  destruct (segment chars) as [lead gs]. cbn [fst snd] in *. subst clean.
  unfold collectChar. cbn [fst snd]. destruct (isCombiningChar c).
  - (* a mark: it goes under the index of the last base character *)
    unfold addMark. cbn [fst snd]. rewrite length_fmap.
    destruct gs as [|g0 gs0] eqn:Egs.
    + split; [reflexivity|]. intros i. cbn [fst snd length].
      rewrite lookup_insert_ne by lia. apply IH2.
    + rewrite <- Egs in *.
      assert (0 < length gs)%nat as Hlen by (rewrite Egs; cbn; lia).
      clear Egs g0 gs0. split; cbn [fst snd].
      * apply list_eq. intros i. rewrite !list_lookup_fmap.
        destruct (decide (i = length gs - 1)%nat) as [->|Hne].
        -- rewrite list_lookup_alter_eq. by destruct (gs !! _).
        -- by rewrite list_lookup_alter_ne.
      * intros i. replace (Z.of_nat (length gs) - 1) with (Z.of_nat (length gs - 1)) by lia.
        destruct (decide (i = length gs - 1)%nat) as [->|Hne].
        -- rewrite lookup_insert_eq, list_lookup_alter_eq, IH2.
           cbn [default]. destruct (gs !! _) as [g|] eqn:Hg; [reflexivity|].
           apply lookup_ge_None in Hg. lia.
        -- rewrite lookup_insert_ne by lia. rewrite list_lookup_alter_ne by done. apply IH2.
  - (* a base character: a new group without marks *)
    split; cbn [fst snd].
    + by rewrite fmap_app.
    + intros i. rewrite IH2. destruct (decide (i < length gs)%nat) as [Hlt|Hge].
      * by rewrite lookup_app_l.
      * rewrite (lookup_ge_None_2 gs) by lia.
        rewrite lookup_app_r by lia.
        destruct (i - length gs)%nat as [|k]; [reflexivity|].
        by destruct k.
Qed.

Lemma convertChar_marks (lookup : MappingLookup) (M : gmap Z (list jsstring))
    (idx : nat) (char : jsstring) :
  convertChar lookup M idx char
  = convertBase lookup char ++ concat (default [] (M !! Z.of_nat idx)).
Proof.
  unfold convertChar, convertBase. destruct (M !! Z.of_nat idx) as [marks|]; cbn [default].
  - by rewrite join_nil_concat.
  - by rewrite app_nil_r.
Qed.

(** The conversion, group by group: every base character is converted
    and followed by its own marks; the leading marks are not in the result. *)
Lemma convert_by_groups (text targetVariant : jsstring) :
  variantEmphasisMap_get targetVariant ≠ undefinedValue →
  convertPreservingEmphasis text targetVariant
  = concat ((λ g, convertBase (variantEmphasisMap_get targetVariant) g.1 ++ concat g.2)
              <$> (segment (Array_from text)).2).
Proof.
  intros Hdef. unfold convertPreservingEmphasis.
  destruct (collectChar_collected (Array_from text)) as [H1 H2].
  set (lookup := variantEmphasisMap_get targetVariant) in *.
  set (st := foldl collectChar ([], ∅) (Array_from text)) in *.
  set (gs := (segment (Array_from text)).2) in *.
  assert (join [] (imap (convertChar lookup st.2) st.1)
          = concat ((λ g, convertBase lookup g.1 ++ concat g.2) <$> gs)) as Hgo.
  { rewrite join_nil_concat. f_equal. rewrite H1. apply list_eq. intros i.
    rewrite list_lookup_imap, !list_lookup_fmap.
    specialize (H2 i). destruct (gs !! i) as [g|]; [|reflexivity].
    cbn [fmap option_fmap option_map default] in *.
    rewrite convertChar_marks, H2. reflexivity. }
  destruct lookup; [exact Hgo|exact Hgo|congruence].
Qed.

End Conversion.

Section SansNormal.

Lemma pieceCheck_all : forallb pieceCheck asciiCodes = true.
Proof. vm_compute. reflexivity. Qed.

Lemma detected_eqb_eq (a b : Detected) : detected_eqb a b = true → a = b.
Proof.
  unfold detected_eqb, emphasis_eqb. destruct a, b. cbn [plain emphasis].
  rewrite andb_true_iff, streq_eq, bool_decide_eq_true. by intros [-> ->].
Qed.

Lemma piece_facts (p : piece) :
  pieceOk p →
  scalarShape (written p) = true ∧ isCombiningChar (written p) = false
  ∧ convertBase sansLookup (written p) = expected p
  ∧ scalarShape (expected p) = true
  ∧ detectCharEmphasis (expected p) = expectedDetection p
  ∧ expectedEntry p.
Proof.
  intros Hp.
  assert (∃ c, (p = boldPiece c ∨ p = plainPiece c) ∧ 0 ≤ c < 128) as (c & Hpc & Hc).
  { destruct p as [c|c]; exists c; cbn [pieceOk] in Hp;
      (split; [auto|]); [by apply isAsciiAlnum_range | done]. }
  pose proof (ascii_forallb _ pieceCheck_all c Hc) as Hok.
  unfold pieceCheck in Hok. apply andb_true_iff in Hok as [Hbold Hplain].
  destruct Hpc as [-> | ->].
  - cbn [pieceOk] in Hp. rewrite Hp in Hbold. cbn [implb] in Hbold. cbv zeta in Hbold.
    rewrite !andb_true_iff, negb_true_iff, streq_eq in Hbold.
    destruct Hbold as ((((((H1 & H2) & H3) & H4) & H5) & H6) & _).
    repeat split; try assumption.
    + by apply detected_eqb_eq.
    + by apply styledEntries_member.
  - cbv zeta in Hplain. rewrite !andb_true_iff, negb_true_iff, streq_eq in Hplain.
    destruct Hplain as (((((H1 & H2) & H3) & H4) & H5) & H6).
    repeat split; try assumption.
    + by apply detected_eqb_eq.
    + cbn [expectedEntry]. destruct (isAsciiAlnum c) eqn:Halnum.
      * cbn [implb] in Hbold. cbv zeta in Hbold.
        rewrite !andb_true_iff in Hbold. destruct Hbold as [_ H7].
        by apply styledEntries_member.
      * cbn [orb] in H6. by apply streq_eq.
Qed.

Lemma forallb_fmap_Forall {A} (f : A → jsstring) (P : jsstring → bool) (l : list A) :
  Forall (λ x, P (f x) = true) l → forallb P (f <$> l) = true.
Proof.
  induction 1 as [|x l Hx _ IH]; [reflexivity|].
  cbn [fmap list_fmap forallb]. rewrite Hx. exact IH.
Qed.

Lemma segment_no_marks (chars : list jsstring) :
  Forall (λ c, isCombiningChar c = false) chars →
  segment chars = ([], (λ c, (c, [])) <$> chars).
Proof.
  induction 1 as [|c rest Hc _ IH]; [reflexivity|].
  cbn [segment]. rewrite Hc, IH. reflexivity.
Qed.

End SansNormal.

Lemma sansNormal_round_trip (pieces : list piece) :
  Forall pieceOk pieces →
  let result := convertPreservingEmphasis (concat (written <$> pieces)) (str "sansNormal") in
  result = concat (expected <$> pieces)
  ∧ Array_from result = expected <$> pieces
  ∧ detectCharEmphasis <$> Array_from result = expectedDetection <$> pieces.
Proof.
  intros Hok.
  assert (Forall (λ p, scalarShape (written p) = true ∧ isCombiningChar (written p) = false
                       ∧ convertBase sansLookup (written p) = expected p
                       ∧ scalarShape (expected p) = true
                       ∧ detectCharEmphasis (expected p) = expectedDetection p
                       ∧ expectedEntry p) pieces) as Hall.
  { eapply Forall_impl; [exact Hok|]. apply piece_facts. }
  clear Hok.
  assert (forallb scalarShape (written <$> pieces) = true) as Hwritten.
  { apply forallb_fmap_Forall. eapply Forall_impl; [exact Hall|]. intros p Hp. apply Hp. }
  assert (Forall (λ c, isCombiningChar c = false) (written <$> pieces)) as Hbase.
  { apply Forall_fmap. eapply Forall_impl; [exact Hall|]. intros p Hp. apply Hp. }
  assert ((λ p, convertBase sansLookup (written p)) <$> pieces = expected <$> pieces) as Hconv.
  { apply Forall_fmap_ext. eapply Forall_impl; [exact Hall|]. intros p Hp. apply Hp. }
  assert (forallb scalarShape (expected <$> pieces) = true) as Hexpected.
  { apply forallb_fmap_Forall. eapply Forall_impl; [exact Hall|]. intros p Hp. apply Hp. }
  assert ((λ p, detectCharEmphasis (expected p)) <$> pieces = expectedDetection <$> pieces)
    as Hdetect.
  { apply Forall_fmap_ext. eapply Forall_impl; [exact Hall|]. intros p Hp. apply Hp. }
  clear Hall. intros result.
  assert (result = concat (expected <$> pieces)) as Hresult.
  { unfold result. rewrite convert_by_groups by (vm_compute; discriminate).
    fold sansLookup.
    rewrite (Array_from_concat _ (scalar_canonical _ Hwritten)).
    rewrite (segment_no_marks _ Hbase). cbn [snd].
    rewrite <- !list_fmap_compose, <- Hconv. f_equal.
    apply list_fmap_ext. intros _ p _. cbn [compose fst snd concat]. apply app_nil_r. }
  assert (Array_from result = expected <$> pieces) as Hchars.
  { rewrite Hresult. apply Array_from_concat, scalar_canonical, Hexpected. }
  split; [exact Hresult|]. split; [exact Hchars|].
  rewrite Hchars, <- list_fmap_compose. exact Hdetect.
Qed.

(** C2.  In the conversion of any text to [sansNormal], each
    base character is converted on its own and followed by the marks it had.
    The bold code point of a letter or digit becomes the boldSans code point
    of the same letter or digit, which [detectCharEmphasis] reports as
    [bold]; a plain ASCII letter or digit becomes its code point of the
    sansNormal table, which [detectCharEmphasis] reports as [none]; any
    other plain ASCII character (a space, a punctuation mark) has no
    sansNormal code point and is left unchanged, still reported as [none].
    For a text made of such bold and plain characters only, in any order,
    reading the result code point by code point and detecting the emphasis
    of each gives back, place by place, the character and the emphasis it
    had. *)
Theorem convert_sansNormal_keeps_emphasis :
  (∀ text,
      let s := segment (Array_from text) in
      Array_from text = s.1 ++ flatten s.2
      ∧ convertPreservingEmphasis text (str "sansNormal")
        = concat ((λ g, convertBase sansLookup g.1 ++ concat g.2) <$> s.2))
  ∧ (∀ p, pieceOk p →
          convertBase sansLookup (written p) = expected p
          ∧ detectCharEmphasis (expected p) = expectedDetection p
          ∧ expectedEntry p)
  ∧ (∀ pieces, Forall pieceOk pieces →
       let result := convertPreservingEmphasis (concat (written <$> pieces)) (str "sansNormal") in
       result = concat (expected <$> pieces)
       ∧ Array_from result = expected <$> pieces
       ∧ detectCharEmphasis <$> Array_from result = expectedDetection <$> pieces).
Proof.
  split; [|split].
  - intros text s. split; [apply segment_flatten|].
    apply convert_by_groups. vm_compute. discriminate.
  - intros p Hp. destruct (piece_facts p Hp) as (_ & _ & H1 & _ & H2 & H3). auto.
  - apply sansNormal_round_trip.
Qed.

Lemma convert_sansNormal_keeps_emphasis_witness :
  let pieces := [boldPiece 0x48; boldPiece 0x69; plainPiece 0x20; plainPiece 0x79; plainPiece 0x6F] in
  Forall pieceOk pieces
  ∧ detectCharEmphasis
      <$> Array_from (convertPreservingEmphasis (concat (written <$> pieces)) (str "sansNormal"))
    = [mkDetected (str "H") Em.bold; mkDetected (str "i") Em.bold;
       mkDetected (str " ") Em.none; mkDetected (str "y") Em.none;
       mkDetected (str "o") Em.none].
Proof.
  intros pieces.
  assert (Forall pieceOk pieces) as Hok.
  { repeat constructor; cbn; lia. }
  split; [exact Hok|].
  destruct convert_sansNormal_keeps_emphasis as (_ & _ & Hround).
  exact (proj2 (proj2 (Hround pieces Hok))).
Defined.

(** C2 does not hold of every plain character: in the conversion of
    bold "Hi" followed by plain " yo" the third code point is still the
    space U+0020, and no entry of the sansNormal table (nor of any other
    table) has the space as its value. *)
Lemma plain_space_has_no_sansNormal :
  let text := toUnicodeStyle (str "Hi") bold ++ str " yo" in
  Array_from text !! 2%nat = Some (str " ")
  ∧ Array_from (convertPreservingEmphasis text (str "sansNormal")) !! 2%nat = Some (str " ")
  ∧ ¬ (∃ name p, (name, (p, str " ")) ∈ styledEntries)
  ∧ ¬ (∀ c, 0 ≤ c < 128 →
            ∃ p, (sansNormal, (p, convertPreservingEmphasis [c] (str "sansNormal")))
                 ∈ styledEntries).
Proof.
  assert (¬ (∃ name p, (name, (p, str " ")) ∈ styledEntries)) as Hspace.
  { intros (name & p & Hin).
    destruct (styledEntries_elem _ _ _ Hin) as (_ & _ & _ & Hhigh & _).
    discriminate Hhigh. }
  cbv zeta. split; [vm_compute; reflexivity|]. split; [vm_compute; reflexivity|].
  split; [exact Hspace|].
  intros Hall. destruct (Hall 0x20 ltac:(lia)) as [p Hin]. apply Hspace.
  exists sansNormal, p.
  replace (str " ") with (convertPreservingEmphasis [0x20] (str "sansNormal"))
    by (vm_compute; reflexivity).
  exact Hin.
Qed.

(** ** Where the code units and the code points part *)

Section CodeUnits.

(** [appendAfterEach] puts the marker after every code unit. *)
Lemma appendAfterEach_units (marker s : jsstring) :
  appendAfterEach marker s = concat ((λ u, u :: marker) <$> s).
Proof.
  unfold appendAfterEach, split_units.
  rewrite join_nil_concat, <- list_fmap_compose. reflexivity.
Qed.

Lemma toUnicodeStyle_underline (text : jsstring) :
  toUnicodeStyle text underline = concat ((λ u, [u; 0x0332]) <$> text).
Proof.
  destruct text as [|u text]; simp toUnicodeStyle; [reflexivity|].
  apply appendAfterEach_units.
Qed.

Lemma toUnicodeStyle_strikethrough (text : jsstring) :
  toUnicodeStyle text strikethrough = concat ((λ u, [u; 0x0336]) <$> text).
Proof.
  destruct text as [|u text]; simp toUnicodeStyle; [reflexivity|].
  apply appendAfterEach_units.
Qed.

(** The marks keep every unit apart, so the result has two code points
    for each code unit of the text. *)
Lemma Array_from_marked (m : Z) (text : jsstring) :
  isHighSurrogate m = false → isLowSurrogate m = false →
  Array_from (concat ((λ u, [u; m]) <$> text)) = concat ((λ u, [[u]; [m]]) <$> text).
Proof.
  intros Hh Hl. induction text as [|u text IH]; [reflexivity|].
  cbn [fmap list_fmap concat app]. rewrite Array_from_unfold, Hl, andb_false_r.
  f_equal. rewrite <- IH. clear IH.
  destruct text as [|v text]; [reflexivity|].
  cbn [fmap list_fmap concat app]. rewrite Array_from_unfold, Hh. reflexivity.
Qed.

Lemma underline_code_points (text : jsstring) :
  length (Array_from (toUnicodeStyle text underline)) = (2 * length text)%nat.
Proof.
  rewrite toUnicodeStyle_underline, Array_from_marked by reflexivity.
  induction text as [|u text IH]; [reflexivity|].
  cbn [fmap list_fmap concat app length]. rewrite IH. lia.
Qed.

(** On a text without surrogates the code points are the code units, and
    their number doubles. *)
Lemma Array_from_bmp (text : jsstring) :
  Forall (λ u, isHighSurrogate u = false) text → Array_from text = split_units text.
Proof.
  induction 1 as [|u text Hu _ IH]; [reflexivity|].
  destruct text as [|v text]; [reflexivity|].
  rewrite Array_from_unfold, Hu, IH. reflexivity.
Qed.

Lemma underline_doubles_bmp (text : jsstring) :
  Forall (λ u, isHighSurrogate u = false) text →
  length (Array_from (toUnicodeStyle text underline))
  = (2 * length (Array_from text))%nat.
Proof.
  intros Hbmp. rewrite underline_code_points, Array_from_bmp by exact Hbmp.
  unfold split_units. by rewrite length_fmap.
Qed.

Example underline_Hi :
  Array_from (toUnicodeStyle (str "Hi") underline) = [str "H"; [0x0332]; str "i"; [0x0332]].
Proof. vm_compute. reflexivity. Qed.

(** A variant that names no property at all is a no-op. *)
Lemma convert_undefined_variant (text targetVariant : jsstring) :
  variantEmphasisMap_get targetVariant = undefinedValue →
  convertPreservingEmphasis text targetVariant = text.
Proof. unfold convertPreservingEmphasis. by intros ->. Qed.

End CodeUnits.

(** C3. The marker goes after every UTF-16 code unit, not after every
    character: a bold letter is one code point of two units, and
    [boldUnderline] breaks it into two lone surrogates, each followed by
    U+0332, four code points for the one of the bold text.  Underlining the
    already bold letter does the same. *)
Theorem boldUnderline_splits_surrogates :
  toUnicodeStyle (str "A") bold = [0xD835; 0xDC00]
  ∧ Array_from (toUnicodeStyle (str "A") bold) = [[0xD835; 0xDC00]]
  ∧ toUnicodeStyle (str "A") boldUnderline = [0xD835; 0x0332; 0xDC00; 0x0332]
  ∧ Array_from (toUnicodeStyle (str "A") boldUnderline)
    = [[0xD835]; [0x0332]; [0xDC00]; [0x0332]]
  ∧ toUnicodeStyle [0xD835; 0xDC00] underline = [0xD835; 0x0332; 0xDC00; 0x0332]
  ∧ toUnicodeStyle (str "A") boldStrikethrough = [0xD835; 0x0336; 0xDC00; 0x0336].
Proof. repeat (split; [vm_compute; reflexivity|]). vm_compute. reflexivity. Qed.

(** C4. A combining mark that stands before the first base character is
    recorded under the index -1 and never written back: the conversion
    loses it, where [removeUnicodeFormatting] with [preserveCombining]
    keeps it. *)
Theorem leading_mark_lost :
  convertPreservingEmphasis ([0x0332] ++ str "a") (str "bold") = toUnicodeStyle (str "a") bold
  ∧ toUnicodeStyle (str "a") bold = [0xD835; 0xDC1A]
  ∧ convertPreservingEmphasis ([0x0336] ++ str "a" ++ [0x0332]) (str "normal")
    = str "a" ++ [0x0332]
  ∧ removeUnicodeFormatting ([0x0336] ++ str "a" ++ [0x0332]) true
    = [0x0336] ++ str "a" ++ [0x0332].
Proof. repeat (split; [vm_compute; reflexivity|]). vm_compute. reflexivity. Qed.

(** C5. [constructor] is no key of [variantEmphasisMap], yet the lookup
    finds the property inherited from [Object.prototype], the guard does
    not return, and the text comes back without its styling: a bold A
    becomes a plain A. *)
Theorem inherited_variant_strips_style :
  ownProperty variantEmphasisMap (str "constructor") = None
  ∧ variantEmphasisMap_get (str "constructor") = inheritedValue
  ∧ toUnicodeStyle (str "A") bold = [0xD835; 0xDC00]
  ∧ convertPreservingEmphasis [0xD835; 0xDC00] (str "constructor") = str "A".
Proof. repeat (split; [vm_compute; reflexivity|]). vm_compute. reflexivity. Qed.

Lemma list_formatters_witness :
  toCheckboxList (str "  milk " ++ NEWLINE ++ str "   " ++ NEWLINE ++ str "tea")
  = [0x2610] ++ str " milk" ++ NEWLINE ++ [0x2610] ++ str " tea"
  ∧ isWhiteSpace 0x6D = false.
Proof.
  pose proof (list_formatters (str "  milk " ++ NEWLINE ++ str "   " ++ NEWLINE ++ str "tea"))
    as (_ & Htrim & _ & Hbox & _).
  split.
  - rewrite Hbox. vm_compute. reflexivity.
  - apply (proj2 (proj2 (Htrim (str "  milk "))) 0x6D). left. vm_compute. reflexivity.
Defined.

(** ** More on styling and removal *)

Lemma obj_get_elem (o : Obj) (k v : jsstring) : obj_get o k = Some v → (k, v) ∈ o.
Proof.
  induction o as [|[k' v'] o IH]; cbn [obj_get]; [discriminate|].
  destruct (streq k' k) eqn:Hk.
  - intros [= ->]. apply streq_eq in Hk as ->. left.
  - intros H. right. by apply IH.
Qed.

Lemma charMaps_get_elem (S : UnicodeStyle) (m : StyleMap) :
  charMaps_get S = Some m → (S, m) ∈ charMaps.
Proof.
  unfold charMaps_get. destruct (List.find _ charMaps) as [[n sm]|] eqn:Hf; [|discriminate].
  intros [= <-]. apply find_some in Hf as [Hin Hn]. cbn [fst snd] in *.
  apply bool_decide_eq_true in Hn as <-. by apply list_elem_of_In.
Qed.

Lemma styleChar_not_alnum (S : UnicodeStyle) (m : StyleMap) (u : Z) :
  charMaps_get S = Some m → isAsciiAlnum u = false → styleChar m [u] = [u].
Proof.
  intros Hm%charMaps_get_elem Hu.
  assert (∀ v, ([u], v) ∈ entriesOf m → False) as Hno.
  { intros v Hv. pose proof (styledEntries_charMaps _ _ _ _ Hm Hv) as Hin.
    destruct (styledEntries_elem _ _ _ Hin) as ((c & [= <-] & Hc) & _). congruence. }
  unfold entriesOf in Hno. unfold styleChar.
  destruct (obj_get (upper m) [u]) as [v|] eqn:H1.
  { exfalso. apply (Hno v). apply obj_get_elem in H1. rewrite !elem_of_app. auto. }
  destruct (obj_get (lower m) [u]) as [v|] eqn:H2.
  { exfalso. apply (Hno v). apply obj_get_elem in H2. rewrite !elem_of_app. auto. }
  destruct (digits m) as [d|] eqn:Hd; [|reflexivity]. cbn [mbind option_bind].
  destruct (obj_get d [u]) as [v|] eqn:H3; [|reflexivity].
  exfalso. apply (Hno v). apply obj_get_elem in H3. rewrite !elem_of_app. auto.
Qed.

Lemma digitCheck_all :
  forallb (λ S, forallb (digitCheck S) asciiCodes) digitlessStyles = true.
Proof. vm_compute. reflexivity. Qed.

Lemma letterStyles_map (S : UnicodeStyle) :
  S ∈ letterStyles → ∃ m, charMaps_get S = Some m.
Proof.
  intros HS. destruct (styleChar_alnum S 0x41 HS eq_refl) as (m & Hm & _). eauto.
Qed.

Lemma concat_units (f : Z → jsstring) (text : jsstring) :
  Forall (λ u, f u = [u]) text → concat (f <$> text) = text.
Proof.
  induction 1 as [|u text Hu _ IH]; [reflexivity|].
  cbn [fmap list_fmap concat]. rewrite Hu, IH. reflexivity.
Qed.

Lemma letter_style_unmapped (text : jsstring) (S : UnicodeStyle) :
  S ∈ letterStyles →
  Forall (λ u, isAsciiAlnum u = false) text →
  toUnicodeStyle text S = text.
Proof.
  intros [m Hm]%letterStyles_map Htext.
  rewrite (toUnicodeStyle_letter _ _ _ Hm). apply concat_units.
  eapply Forall_impl; [exact Htext|]. intros u Hu. by apply (styleChar_not_alnum S).
Qed.

(** X1. A letter style leaves a text without ASCII letters and digits as it
    is: punctuation, white space, accented letters and surrogates pass
    through unchanged. *)
Theorem toUnicodeStyle_keeps_unmapped (text : jsstring) (S : UnicodeStyle) :
  S ∈ letterStyles →
  Forall (λ u, isAsciiAlnum u = false) text →
  toUnicodeStyle text S = text.
Proof. apply letter_style_unmapped. Qed.

Lemma toUnicodeStyle_keeps_unmapped_witness :
  Forall (λ u, isAsciiAlnum u = false) ([0x20; 0x2D; 0xE9; 0xD83D; 0xDE00])
  ∧ monospace ∈ letterStyles
  ∧ toUnicodeStyle [0x20; 0x2D; 0xE9; 0xD83D; 0xDE00] monospace
    = [0x20; 0x2D; 0xE9; 0xD83D; 0xDE00].
Proof.
  assert (Forall (λ u, isAsciiAlnum u = false) ([0x20; 0x2D; 0xE9; 0xD83D; 0xDE00])) as Ht.
  { repeat constructor. }
  assert (monospace ∈ letterStyles) as HS.
  { unfold letterStyles. set_solver. }
  split; [exact Ht|]. split; [exact HS|].
  exact (toUnicodeStyle_keeps_unmapped _ _ HS Ht).
Defined.

(** X2. The styles that have no digit table (italic, boldItalic, italicSans,
    boldItalicSans, script) leave every text without ASCII letters as it is;
    digits are not styled. *)
Theorem digitless_styles_keep_digits (text : jsstring) (S : UnicodeStyle) :
  S ∈ digitlessStyles →
  Forall (λ u, isAsciiLetter u = false) text →
  toUnicodeStyle text S = text.
Proof.
  intros HS Htext.
  assert (S ∈ letterStyles) as [m Hm]%letterStyles_map.
  { unfold digitlessStyles in HS. rewrite !elem_of_cons, elem_of_nil in HS.
    destruct HS as [->|[->|[->|[->|[->|[]]]]]]; unfold letterStyles; set_solver. }
  rewrite (toUnicodeStyle_letter _ _ _ Hm). apply concat_units.
  eapply Forall_impl; [exact Htext|]. intros u Hu. cbn beta in Hu.
  destruct (isAsciiAlnum u) eqn:Ha; [|by apply (styleChar_not_alnum S)].
  apply list_elem_of_In in HS.
  pose proof (proj1 (forallb_forall _ _) digitCheck_all S HS) as HSok.
  pose proof (ascii_forallb _ HSok u (isAsciiAlnum_range u Ha)) as Hok.
  unfold digitCheck in Hok. rewrite Hm, Hu in Hok. cbn [negb implb] in Hok.
  by apply streq_eq.
Qed.

Lemma digitless_styles_keep_digits_witness :
  italic ∈ digitlessStyles
  ∧ Forall (λ u, isAsciiLetter u = false) (str "2024-06")
  ∧ toUnicodeStyle (str "2024-06") italic = str "2024-06".
Proof.
  assert (italic ∈ digitlessStyles) as HS.
  { unfold digitlessStyles. set_solver. }
  assert (Forall (λ u, isAsciiLetter u = false) (str "2024-06")) as Ht.
  { repeat constructor. }
  split; [exact HS|]. split; [exact Ht|].
  exact (digitless_styles_keep_digits _ _ HS Ht).
Defined.

(** *** Removal after the combining styles *)

Lemma removeMarks_app (a b : jsstring) : removeMarks (a ++ b) = removeMarks a ++ removeMarks b.
Proof. unfold removeMarks. apply List.filter_app. Qed.

Lemma removeMarks_appendAfterEach (marker s : jsstring) :
  Forall (λ u, isMarkUnit u = true) marker →
  removeMarks (appendAfterEach marker s) = removeMarks s.
Proof.
  intros Hm. rewrite appendAfterEach_units.
  assert (removeMarks marker = []) as Hnil.
  { unfold removeMarks. induction Hm as [|u r Hu _ IH]; [reflexivity|].
    cbn [List.filter]. rewrite Hu. exact IH. }
  induction s as [|u s IH]; [reflexivity|].
  cbn [fmap list_fmap concat]. change (u :: marker) with ([u] ++ marker).
  rewrite <- app_assoc, !removeMarks_app, Hnil, IH. cbn [app].
  symmetry. apply (removeMarks_app [u] s).
Qed.

Lemma removal_after_marker (marker s : jsstring) :
  Forall (λ u, isMarkUnit u = true) marker →
  removeUnicodeFormatting (appendAfterEach marker s) false = removeUnicodeFormatting s false.
Proof.
  intros Hm. unfold removeUnicodeFormatting. by rewrite removeMarks_appendAfterEach.
Qed.

(** X3. Removing the formatting of an underlined or struck-through text
    gives what removing the formatting of the text itself gives, for every
    text. *)
Theorem removal_undoes_marks (text : jsstring) :
  removeUnicodeFormatting (toUnicodeStyle text underline) false
  = removeUnicodeFormatting text false
  ∧ removeUnicodeFormatting (toUnicodeStyle text strikethrough) false
    = removeUnicodeFormatting text false.
Proof.
  destruct text as [|u text]; simp toUnicodeStyle; [split; reflexivity|].
  split; apply removal_after_marker; repeat constructor.
Qed.

(** The round trip of the letter styles, with or without the marks kept. *)
Lemma removal_of_letter_style (text : jsstring) (S : UnicodeStyle) (keep : bool) :
  Forall (λ u, isAsciiAlnum u = true) text → S ∈ letterStyles →
  removeUnicodeFormatting (toUnicodeStyle text S) keep = text.
Proof.
  intros Htext HS. destruct (letterStyles_map S HS) as [m Hm].
  rewrite (toUnicodeStyle_letter _ _ _ Hm).
  assert (Forall (λ u, scalarShape (styleChar m [u]) = true
                       ∧ markFree (styleChar m [u]) = true
                       ∧ unstyleChar (styleChar m [u]) = [u]) text) as Hall.
  { eapply Forall_impl; [exact Htext|]. intros u Hu. cbn beta in *.
    destruct (styleChar_alnum S u HS Hu) as (m' & Hm' & H1 & H2 & H3).
    rewrite Hm in Hm'. injection Hm' as <-. auto. }
  assert (removeMarks (concat ((λ u, styleChar m [u]) <$> text))
          = concat ((λ u, styleChar m [u]) <$> text)) as Hfree.
  { apply removeMarks_id. rewrite markFree_concat. apply forallb_fmap_Forall.
    eapply Forall_impl; [exact Hall|]. intros u Hu. apply Hu. }
  unfold removeUnicodeFormatting.
  assert (∀ r, r = concat ((λ u, styleChar m [u]) <$> text) →
               join [] (unstyleChar <$> Array_from r) = text) as Hgo.
  { intros r ->. rewrite Array_from_concat, join_nil_concat.
    - rewrite <- list_fmap_compose. apply concat_units.
      eapply Forall_impl; [exact Hall|]. intros u Hu. apply Hu.
    - apply scalar_canonical, forallb_fmap_Forall.
      eapply Forall_impl; [exact Hall|]. intros u Hu. apply Hu. }
  destruct keep; apply Hgo; [reflexivity | exact Hfree].
Qed.

(** X4. Removing the formatting of the [boldUnderline] or [boldStrikethrough]
    form of a text of ASCII letters and digits gives the text back, although
    the marks stand between the two units of each bold character. *)
Theorem removal_undoes_bold_marks (text : jsstring) :
  Forall (λ u, isAsciiAlnum u = true) text →
  removeUnicodeFormatting (toUnicodeStyle text boldUnderline) false = text
  ∧ removeUnicodeFormatting (toUnicodeStyle text boldStrikethrough) false = text.
Proof.
  intros Htext.
  assert (removeUnicodeFormatting (toUnicodeStyle text bold) false = text) as Hbold.
  { apply removal_of_letter_style; [exact Htext|]. unfold letterStyles. set_solver. }
  destruct text as [|u text]; simp toUnicodeStyle; [split; reflexivity|].
  rewrite !removal_after_marker by repeat constructor. split; exact Hbold.
Qed.

Lemma removal_undoes_bold_marks_witness :
  Forall (λ u, isAsciiAlnum u = true) (str "Abc1")
  ∧ toUnicodeStyle (str "Abc1") boldUnderline
    = [0xD835; 0x332; 0xDC00; 0x332; 0xD835; 0x332; 0xDC1B; 0x332;
       0xD835; 0x332; 0xDC1C; 0x332; 0xD835; 0x332; 0xDFCF; 0x332]
  ∧ removeUnicodeFormatting (toUnicodeStyle (str "Abc1") boldUnderline) false = str "Abc1".
Proof.
  assert (Forall (λ u, isAsciiAlnum u = true) (str "Abc1")) as Ht.
  { repeat constructor. }
  split; [exact Ht|]. split; [vm_compute; reflexivity|].
  exact (proj1 (removal_undoes_bold_marks _ Ht)).
Defined.

(** X5. With [preserveCombining = true] too, removing the formatting of a
    text of ASCII letters and digits in a letter style gives the text back. *)
Theorem roundtrip_preserving_combining (text : jsstring) (S : UnicodeStyle) :
  Forall (λ u, isAsciiAlnum u = true) text → S ∈ letterStyles →
  removeUnicodeFormatting (toUnicodeStyle text S) true = text.
Proof. intros. by apply removal_of_letter_style. Qed.

(** *** What removal leaves *)

Lemma Array_from_unstyled (es : list jsstring) :
  canonical es = true →
  Array_from (concat (unstyleChar <$> es)) = unstyleChar <$> es.
Proof.
  intros Hc. apply Array_from_concat, canonical_fmap; auto using unstyleChar_shape.
Qed.

Lemma reverseMap_unstyled (e : jsstring) : reverseMap !! unstyleChar e = None.
Proof.
  destruct (unstyleChar_cases e) as [[Hn He]|(c & Hc & He & _)]; rewrite He; [exact Hn|].
  apply reverseMap_ascii. apply isAsciiAlnum_range in Hc. lia.
Qed.

Lemma detect_outside_reverseMap (e : jsstring) :
  reverseMap !! e = None → detectCharEmphasis e = mkDetected e Em.none.
Proof.
  intros Hn. apply detectCharEmphasis_unmapped. intros name p Hin.
  destruct (styledEntries_elem _ _ _ Hin) as (_ & _ & _ & _ & _ & Hr). congruence.
Qed.

Lemma removal_chars (t : jsstring) (keep : bool) :
  removeUnicodeFormatting t keep = concat (unstyleChar <$> charsRead t keep)
  ∧ Array_from (removeUnicodeFormatting t keep) = unstyleChar <$> charsRead t keep.
Proof.
  unfold removeUnicodeFormatting, charsRead. rewrite join_nil_concat. split; [reflexivity|].
  apply Array_from_unstyled, Array_from_canonical.
Qed.

(** X6. What [removeUnicodeFormatting] returns holds no code point of the
    tables ([detectCharEmphasis] finds each one plain) and, unless the marks
    are kept, no combining mark. *)
Theorem removal_leaves_plain (t : jsstring) (keep : bool) :
  Forall (λ e, reverseMap !! e = None ∧ detectCharEmphasis e = mkDetected e Em.none)
         (Array_from (removeUnicodeFormatting t keep))
  ∧ (keep = false → markFree (removeUnicodeFormatting t keep) = true).
Proof.
  destruct (removal_chars t keep) as [Hout Hchars]. split.
  - rewrite Hchars. apply Forall_fmap, Forall_forall. intros e _. cbn [compose].
    split; [apply reverseMap_unstyled | apply detect_outside_reverseMap, reverseMap_unstyled].
  - intros ->. rewrite Hout, markFree_concat. apply forallb_fmap_Forall, Forall_forall.
    intros e He. apply markFree_unstyleChar.
    assert (forallb markFree (charsRead t false) = true) as Hall.
    { unfold charsRead. rewrite <- markFree_concat, concat_Array_from.
      apply markFree_removeMarks. }
    apply (proj1 (forallb_forall _ _) Hall). by apply list_elem_of_In.
Qed.

Lemma removal_leaves_plain_witness :
  markFree (removeUnicodeFormatting [0xD835; 0xDC00; 0x0332; 0x62] false) = true.
Proof. exact (proj2 (removal_leaves_plain [0xD835; 0xDC00; 0x0332; 0x62] false) eq_refl). Defined.

(** X7. After a removal, with the marks kept or not, a removal that keeps the
    marks changes nothing. *)
Theorem removal_then_keeping_removal (t : jsstring) (keep : bool) :
  removeUnicodeFormatting (removeUnicodeFormatting t keep) true
  = removeUnicodeFormatting t keep.
Proof.
  destruct (removal_chars t keep) as [Hout Hchars].
  destruct (removal_chars (removeUnicodeFormatting t keep) true) as [Hout2 _].
  rewrite Hout2. unfold charsRead at 1. rewrite Hchars, <- list_fmap_compose, Hout.
  f_equal. apply list_fmap_ext. intros _ e _. apply unstyleChar_idem.
Qed.

(** X8. [removeUnicodeFormatting] returns a text of ASCII characters
    unchanged, whatever [preserveCombining] is. *)
Theorem removal_keeps_ascii (text : jsstring) (keep : bool) :
  Forall (λ u, 0 ≤ u < 128) text → removeUnicodeFormatting text keep = text.
Proof.
  intros Htext.
  assert (removeMarks text = text) as Hfree.
  { apply removeMarks_id. unfold markFree. apply forallb_forall. intros u Hu.
    rewrite Forall_forall in Htext. apply list_elem_of_In, Htext in Hu.
    unfold isMarkUnit, COMBINING_UNDERLINE, COMBINING_STRIKETHROUGH. cbn [streq]. lia. }
  assert (Array_from text = split_units text) as Hunits.
  { apply Array_from_bmp. eapply Forall_impl; [exact Htext|].
    intros u Hu. cbn beta in *. unfold isHighSurrogate. lia. }
  destruct (removal_chars text keep) as [-> _]. unfold charsRead.
  assert ((if keep then text else removeMarks text) = text) as -> by (by destruct keep).
  rewrite Hunits. unfold split_units. rewrite <- list_fmap_compose. apply concat_units.
  eapply Forall_impl; [exact Htext|]. intros u Hu. cbn beta in Hu. cbn [compose].
  unfold unstyleChar. rewrite reverseMap_ascii by lia. reflexivity.
Qed.

Lemma removal_keeps_ascii_witness :
  Forall (λ u, 0 ≤ u < 128) (str "Hello, world! 42")
  ∧ removeUnicodeFormatting (str "Hello, world! 42") true = str "Hello, world! 42".
Proof.
  assert (Forall (λ u, 0 ≤ u < 128) (str "Hello, world! 42")) as Ht.
  { repeat (apply List.Forall_cons;
            [split; [apply Z.leb_le | apply Z.ltb_lt]; reflexivity|]).
    apply List.Forall_nil. }
  split; [exact Ht|]. exact (removal_keeps_ascii _ true Ht).
Defined.

(** X9. With [preserveCombining = true] the combining marks of the text are
    all in the result, in the same order. *)
Theorem removal_keeping_marks (t : jsstring) :
  List.filter isMarkUnit (removeUnicodeFormatting t true) = List.filter isMarkUnit t.
Proof.
  destruct (removal_chars t true) as [-> _]. unfold charsRead.
  rewrite <- (concat_Array_from t) at 2.
  induction (Array_from t) as [|e es IH]; [reflexivity|].
  cbn [fmap list_fmap concat]. rewrite !List.filter_app, IH. f_equal.
  destruct (unstyleChar_cases e) as [[_ ->]|(c & Hc & -> & Hr)]; [reflexivity|].
  destruct (reverseMap_lookup _ _ Hr) as [name Hin].
  destruct (styledEntries_elem _ _ _ Hin) as (_ & _ & Hfree & _).
  apply alnum_markFree in Hc.
  assert (∀ s, markFree s = true → List.filter isMarkUnit s = []) as Hnil.
  { unfold markFree. induction s as [|u s IHs]; [reflexivity|].
    cbn [forallb List.filter]. intros [Hu Hs]%andb_true_iff.
    apply negb_true_iff in Hu. rewrite Hu. by apply IHs. }
  rewrite !Hnil by assumption. reflexivity.
Qed.

Lemma detect_plain_unstyle (char : jsstring) :
  plain (detectCharEmphasis char) = unstyleChar char.
Proof.
  destruct (unstyleChar_cases char) as [[Hn ->]|(c & Hc & -> & Hr)].
  - by rewrite detect_outside_reverseMap.
  - destruct (reverseMap_lookup _ _ Hr) as [name Hin].
    destruct (styledEntries_elem _ _ _ Hin) as (_ & _ & _ & _ & -> & _). reflexivity.
Qed.

(** One code point goes through the removal on its own, unless it is a
    mark that the removal takes out. *)
Lemma removal_of_code_point (char : jsstring) (keep : bool) :
  codePointShape char = true → keep = true ∨ isCombiningChar char = false →
  removeUnicodeFormatting char keep = unstyleChar char.
Proof.
  intros Hshape Hkeep. unfold removeUnicodeFormatting.
  assert ((if keep then char else removeMarks char) = char) as ->.
  { destruct keep; [reflexivity|]. destruct Hkeep as [Hk|Hbase]; [discriminate Hk|].
    destruct char as [|u [|l [|? ?]]]; try discriminate Hshape.
    - unfold removeMarks. cbn [List.filter].
      change (isMarkUnit u) with (isCombiningChar [u]). by rewrite Hbase.
    - cbn [codePointShape] in Hshape. apply andb_true_iff in Hshape as [Hh Hl].
      unfold removeMarks. cbn [List.filter].
      assert (isMarkUnit u = false ∧ isMarkUnit l = false) as [-> ->]; [|reflexivity].
      unfold isMarkUnit, COMBINING_UNDERLINE, COMBINING_STRIKETHROUGH,
        isHighSurrogate, isLowSurrogate in *. cbn [streq]. lia. }
  assert (Array_from char = [char]) as ->.
  { destruct char as [|u [|l [|? ?]]]; try discriminate Hshape; [reflexivity|].
    cbn [codePointShape] in Hshape. rewrite Array_from_unfold, Hshape. reflexivity. }
  cbn [fmap list_fmap join]. reflexivity.
Qed.

(** X10. For a single code point, the plain character [detectCharEmphasis]
    reports is what [removeUnicodeFormatting] returns for it when the marks
    are kept, and with the default flag too unless the character is itself
    a combining mark: the default removal deletes a mark and returns the
    empty string, while the detection reports the mark itself.  A character
    reported with an emphasis other than [none] is changed by the removal,
    whatever the flag. *)
Theorem detection_agrees_with_removal (char : jsstring) :
  codePointShape char = true →
  removeUnicodeFormatting char true = plain (detectCharEmphasis char)
  ∧ (isCombiningChar char = false →
     removeUnicodeFormatting char false = plain (detectCharEmphasis char))
  ∧ (isCombiningChar char = true →
     removeUnicodeFormatting char false = []
     ∧ plain (detectCharEmphasis char) = char)
  ∧ (emphasis (detectCharEmphasis char) ≠ Em.none →
     ∀ keep, removeUnicodeFormatting char keep ≠ char).
Proof.
  intros Hshape.
  pose proof (removal_of_code_point char true Hshape (or_introl eq_refl)) as Hkeep.
  split; [by rewrite Hkeep, detect_plain_unstyle|]. split; [|split].
  - intros Hbase. rewrite detect_plain_unstyle.
    apply removal_of_code_point; [exact Hshape | by right].
  - intros Hmark. unfold isCombiningChar in Hmark.
    apply orb_true_iff in Hmark as [Hmark|Hmark]; apply streq_eq in Hmark; subst char;
      split; vm_compute; reflexivity.
  - intros Hem keep.
    destruct (unstyleChar_cases char) as [[Hn _]|(c & Hc & Hu & Hr)].
    { exfalso. apply Hem. by rewrite detect_outside_reverseMap. }
    destruct (reverseMap_lookup _ _ Hr) as [name Hin].
    destruct (styledEntries_elem _ _ _ Hin) as (_ & _ & Hfree & Hhigh & _).
    rewrite removal_of_code_point, Hu.
    + intros <-. apply isAsciiAlnum_range in Hc. cbn [forallb] in Hhigh.
      rewrite andb_true_r in Hhigh. apply Z.leb_le in Hhigh. lia.
    + exact Hshape.
    + right. destruct char as [|u [|l [|? ?]]]; try discriminate Hshape.
      * unfold markFree in Hfree. cbn [forallb] in Hfree.
        rewrite andb_true_r in Hfree. by apply negb_true_iff in Hfree.
      * unfold isCombiningChar, COMBINING_UNDERLINE, COMBINING_STRIKETHROUGH. cbn [streq].
        by rewrite !andb_false_r.
Qed.

(** ** The conversion, read again *)

Lemma baseCheck_entries :
  forallb (λ L, forallb (λ e, baseCheck L e.2.2) styledEntries) allLookups = true.
Proof. vm_compute. reflexivity. Qed.

Lemma baseCheck_ascii :
  forallb (λ L, forallb (λ u, baseCheck L [u]) asciiCodes) allLookups = true.
Proof. vm_compute. reflexivity. Qed.

Lemma targetCheck_all : forallb targetCheck allLookups = true.
Proof. vm_compute. reflexivity. Qed.

Lemma emphasisCheck_entries :
  forallb (λ L, forallb (λ e, emphasisCheck L e.2.2) styledEntries) keepingLookups = true.
Proof. vm_compute. reflexivity. Qed.

Lemma emphasisCheck_ascii :
  forallb (λ L, forallb (λ u, emphasisCheck L [u]) asciiCodes) keepingLookups = true.
Proof. vm_compute. reflexivity. Qed.

Lemma ownProperty_elem (table : list (string * EmphasisMapping)) (key : jsstring)
    (m : EmphasisMapping) :
  ownProperty table key = Some m → m ∈ table.*2.
Proof.
  induction table as [|[k m'] table IH]; cbn [ownProperty]; [discriminate|].
  destruct (streq (str k) key).
  - intros [= ->]. left.
  - intros H. right. by apply IH.
Qed.

Lemma lookup_cases (targetVariant : jsstring) :
  variantEmphasisMap_get targetVariant = undefinedValue
  ∨ variantEmphasisMap_get targetVariant ∈ allLookups.
Proof.
  unfold variantEmphasisMap_get, allLookups.
  destruct (ownProperty variantEmphasisMap targetVariant) as [m|] eqn:Hown.
  - right. right. apply ownProperty_elem in Hown.
    rewrite list_fmap_compose. by apply list_elem_of_fmap_2.
  - destruct (existsb _ objectPrototypeKeys); [right; left | by left].
Qed.

Lemma baseCheck_facts (lookup : MappingLookup) (b : jsstring) :
  baseCheck lookup b = true → baseFacts lookup b.
Proof.
  unfold baseCheck, baseFacts. cbv zeta.
  rewrite !andb_true_iff, negb_true_iff, !streq_eq. intros [[[H1 H2] H3] H4]. auto.
Qed.

(** A code point that is neither ASCII nor in the tables is left alone. *)
Lemma convertBase_foreign (lookup : MappingLookup) (b : jsstring) :
  lookup ∈ allLookups → reverseMap !! b = None →
  Forall (λ u, isAsciiAlnum u = false) b →
  convertBase lookup b = b.
Proof.
  intros HL Hb Hunits. unfold convertBase.
  rewrite (detect_outside_reverseMap b Hb). cbn [plain emphasis].
  apply list_elem_of_In in HL.
  pose proof (proj1 (forallb_forall _ _) targetCheck_all lookup HL) as Ht.
  unfold targetCheck in Ht.
  destruct (targetStyleOf lookup Em.none) as [[|s]|]; cbn [convertTo]; try reflexivity.
  apply letter_style_unmapped; [|exact Hunits].
  unfold isLetterStyle in Ht. apply existsb_exists in Ht as (s' & Hin & Hs).
  apply bool_decide_eq_true in Hs as ->. by apply list_elem_of_In.
Qed.

Lemma base_facts (lookup : MappingLookup) (b : jsstring) :
  lookup ∈ allLookups → codePointShape b = true → isCombiningChar b = false →
  baseFacts lookup b.
Proof.
  intros HL Hshape Hbase. pose proof HL as HL'. apply list_elem_of_In in HL'.
  destruct (reverseMap !! b) as [p|] eqn:Hr.
  { (* a value of the tables *)
    destruct (reverseMap_lookup _ _ Hr) as [name Hin]. apply list_elem_of_In in Hin.
    apply baseCheck_facts.
    exact (proj1 (forallb_forall _ _)
             (proj1 (forallb_forall _ _) baseCheck_entries lookup HL') _ Hin). }
  destruct b as [|u [|l [|? ?]]]; try discriminate Hshape.
  - destruct (decide (0 ≤ u < 128)) as [Hu|Hu].
    + apply baseCheck_facts.
      exact (ascii_forallb _ (proj1 (forallb_forall _ _) baseCheck_ascii lookup HL') u Hu).
    + assert (convertBase lookup [u] = [u]) as Hc.
      { apply convertBase_foreign; [exact HL|exact Hr|].
        repeat constructor. unfold isAsciiAlnum. lia. }
      unfold baseFacts. rewrite !Hc. auto.
  - cbn [codePointShape] in Hshape. apply andb_true_iff in Hshape as [Hh Hl].
    assert (convertBase lookup [u; l] = [u; l]) as Hc.
    { apply convertBase_foreign; [exact HL|exact Hr|].
      unfold isHighSurrogate, isLowSurrogate in *.
      repeat constructor; unfold isAsciiAlnum; lia. }
    unfold baseFacts. rewrite !Hc. auto.
Qed.

Lemma emphasis_kept (lookup : MappingLookup) (b : jsstring) :
  lookup ∈ keepingLookups → codePointShape b = true →
  emphasis (detectCharEmphasis (convertBase lookup b)) = emphasis (detectCharEmphasis b).
Proof.
  intros HL Hshape. pose proof HL as HL'. apply list_elem_of_In in HL'.
  assert (lookup ∈ allLookups) as Hall.
  { unfold keepingLookups in HL. rewrite !elem_of_cons, elem_of_nil in HL.
    destruct HL as [->|[->|[]]].
    - destruct (lookup_cases (str "normal")) as [H|H]; [vm_compute in H; discriminate H|exact H].
    - destruct (lookup_cases (str "sansNormal")) as [H|H];
        [vm_compute in H; discriminate H|exact H]. }
  assert (∀ c, emphasisCheck lookup c = true →
               emphasis (detectCharEmphasis (convertBase lookup c))
               = emphasis (detectCharEmphasis c)) as Hcheck.
  { intros c Hc. unfold emphasisCheck, emphasis_eqb in Hc. by apply bool_decide_eq_true in Hc. }
  destruct (reverseMap !! b) as [p|] eqn:Hr.
  { destruct (reverseMap_lookup _ _ Hr) as [name Hin]. apply list_elem_of_In in Hin.
    apply Hcheck.
    exact (proj1 (forallb_forall _ _)
             (proj1 (forallb_forall _ _) emphasisCheck_entries lookup HL') _ Hin). }
  destruct b as [|u [|l [|? ?]]]; try discriminate Hshape.
  - destruct (decide (0 ≤ u < 128)) as [Hu|Hu].
    + apply Hcheck.
      exact (ascii_forallb _ (proj1 (forallb_forall _ _) emphasisCheck_ascii lookup HL') u Hu).
    + rewrite convertBase_foreign; [reflexivity|exact Hall|exact Hr|].
      repeat constructor. unfold isAsciiAlnum. lia.
  - cbn [codePointShape] in Hshape. apply andb_true_iff in Hshape as [Hh Hl].
    rewrite convertBase_foreign; [reflexivity|exact Hall|exact Hr|].
    unfold isHighSurrogate, isLowSurrogate in *.
    repeat constructor; unfold isAsciiAlnum; lia.
Qed.

Lemma canonical_shapes (es : list jsstring) :
  canonical es = true → Forall (λ e, codePointShape e = true) es.
Proof.
  induction es as [|e es IH]; [constructor|].
  cbn [canonical]. rewrite !andb_true_iff. intros [[Hs _] Hes]. constructor; auto.
Qed.

Lemma canonical_app_r (a b : list jsstring) :
  canonical (a ++ b) = true → canonical b = true.
Proof.
  induction a as [|e a IH]; [done|].
  cbn [app canonical]. rewrite !andb_true_iff. intros [_ H]. by apply IH.
Qed.

(** Replacing elements by themselves or by scalar elements keeps a
    segmentation canonical. *)
Lemma canonical_fmap_scalar (f : jsstring → jsstring) (es : list jsstring) :
  Forall (λ e, f e = e ∨ scalarShape (f e) = true) es →
  canonical es = true → canonical (f <$> es) = true.
Proof.
  induction 1 as [|e rest He Hrest IH]; [reflexivity|].
  cbn [canonical fmap list_fmap]. rewrite !andb_true_iff, !negb_true_iff.
  intros [[Hshape Hlone] Hcan]. specialize (IH Hcan).
  destruct He as [->|Hs].
  - repeat split; [exact Hshape| |exact IH].
    destruct (loneHigh e); [|reflexivity]. cbn [andb] in *.
    destruct Hrest as [|e' rest' He' _]; [reflexivity|]. cbn [fmap list_fmap].
    destruct He' as [->|Hs']; [exact Hlone|].
    unfold scalarShape in Hs'. rewrite !andb_true_iff, !negb_true_iff in Hs'. apply Hs'.
  - unfold scalarShape in Hs. rewrite !andb_true_iff, !negb_true_iff in Hs.
    destruct Hs as [[Hs1 Hs2] _]. rewrite Hs2. auto.
Qed.

Lemma segment_marks_only (ms rest : list jsstring) :
  Forall (λ c, isCombiningChar c = true) ms →
  segment (ms ++ rest) = (ms ++ (segment rest).1, (segment rest).2).
Proof.
  induction 1 as [|c ms Hc _ IH]; [cbn [app]; by destruct (segment rest)|].
  cbn [app segment]. rewrite Hc, IH. reflexivity.
Qed.

Lemma segment_of_groups (gs : list group) :
  wellGrouped gs → segment (flatten gs) = ([], gs).
Proof.
  unfold flatten. induction 1 as [|[b ms] gs [Hb Hms] _ IH]; [reflexivity|].
  rewrite bind_cons. cbn [fst snd app segment] in *. rewrite Hb.
  rewrite (segment_marks_only _ _ Hms), IH. cbn [fst snd]. by rewrite app_nil_r.
Qed.

Lemma concat_flatten (gs : list group) :
  concat (flatten gs) = concat ((λ g, g.1 ++ concat g.2) <$> gs).
Proof.
  unfold flatten. induction gs as [|g gs IH]; [reflexivity|].
  rewrite bind_cons. cbn [fmap list_fmap concat app]. rewrite concat_app, IH.
  by rewrite <- app_assoc.
Qed.

Lemma flatten_convertGroups (lookup : MappingLookup) (gs : list group) :
  wellGrouped gs →
  flatten (convertGroups lookup gs)
  = (λ e, if isCombiningChar e then e else convertBase lookup e) <$> flatten gs.
Proof.
  unfold flatten, convertGroups. induction 1 as [|[b ms] gs [Hb Hms] _ IH]; [reflexivity|].
  cbn [fmap list_fmap]. rewrite !bind_cons, fmap_app, IH. cbn [fst snd fmap list_fmap] in *.
  rewrite Hb. f_equal. f_equal.
  clear -Hms. induction Hms as [|c ms Hc _ IH]; [reflexivity|].
  cbn [fmap list_fmap]. rewrite Hc. by f_equal.
Qed.

(** The groups of a text, with what is known of them. *)
Lemma groups_of_text (text : jsstring) :
  let gs := (segment (Array_from text)).2 in
  wellGrouped gs ∧ canonical (flatten gs) = true.
Proof.
  intros gs. split; [apply segment_marks|].
  apply (canonical_app_r (segment (Array_from text)).1).
  rewrite <- segment_flatten. apply Array_from_canonical.
Qed.

(** Reading the converted text again: no leading mark, and the converted
    base characters with the marks they had. *)
Lemma convert_reread (text targetVariant : jsstring) :
  variantEmphasisMap_get targetVariant ∈ allLookups →
  Array_from (convertPreservingEmphasis text targetVariant)
  = flatten (convertGroups (variantEmphasisMap_get targetVariant)
                           (segment (Array_from text)).2)
  ∧ wellGrouped (convertGroups (variantEmphasisMap_get targetVariant)
                               (segment (Array_from text)).2).
Proof.
  intros HL. set (L := variantEmphasisMap_get targetVariant) in *.
  destruct (groups_of_text text) as [Hgs Hcan].
  set (gs := (segment (Array_from text)).2) in *.
  assert (Forall (λ g, baseFacts L g.1) gs) as Hfacts.
  { pose proof (canonical_shapes _ Hcan) as Hshapes. unfold flatten in Hshapes.
    clear Hcan. induction Hgs as [|g gs' [Hb _] _ IH]; [constructor|].
    rewrite bind_cons in Hshapes. apply Forall_app in Hshapes as [Hg Hrest].
    apply Forall_cons in Hg as [Hg _]. constructor; [|by apply IH].
    by apply base_facts. }
  assert (wellGrouped (convertGroups L gs)) as Hgs'.
  { unfold wellGrouped, convertGroups. apply Forall_fmap.
    apply Forall_forall. intros g Hg. cbn [compose fst snd].
    unfold wellGrouped in Hgs. rewrite Forall_forall in Hfacts, Hgs. split; [apply (Hfacts g Hg) | apply (Hgs g Hg)]. }
  split; [|exact Hgs'].
  assert (convertPreservingEmphasis text targetVariant = concat (flatten (convertGroups L gs)))
    as ->.
  { rewrite convert_by_groups.
    - rewrite concat_flatten. unfold convertGroups. rewrite <- list_fmap_compose. reflexivity.
    - fold L. intros Hu. rewrite Hu in HL. unfold allLookups in HL.
      rewrite elem_of_cons, list_elem_of_fmap in HL.
      destruct HL as [HL|(x & HL & _)]; discriminate HL. }
  apply Array_from_concat. rewrite (flatten_convertGroups L gs Hgs).
  apply canonical_fmap_scalar; [|exact Hcan].
  unfold flatten. clear Hcan Hgs'.
  induction Hgs as [|g gs' [Hb Hms] _ IH]; [constructor|].
  apply Forall_cons in Hfacts as [Hg Hfacts]. rewrite bind_cons.
  apply Forall_app. split; [|by apply IH].
  constructor.
  - rewrite Hb. apply Hg.
  - eapply Forall_impl; [exact Hms|]. intros c Hc. cbn beta in *. rewrite Hc. by left.
Qed.

Lemma defined_lookup (targetVariant : jsstring) :
  variantEmphasisMap_get targetVariant ≠ undefinedValue →
  variantEmphasisMap_get targetVariant ∈ allLookups.
Proof. by destruct (lookup_cases targetVariant). Qed.

Lemma convert_segments (text targetVariant : jsstring) :
  variantEmphasisMap_get targetVariant ∈ allLookups →
  segment (Array_from (convertPreservingEmphasis text targetVariant))
  = ([], convertGroups (variantEmphasisMap_get targetVariant) (segment (Array_from text)).2).
Proof.
  intros HL. destruct (convert_reread text targetVariant HL) as [-> Hgs].
  by apply segment_of_groups.
Qed.

Lemma convert_twice (text targetVariant : jsstring) :
  convertPreservingEmphasis (convertPreservingEmphasis text targetVariant) targetVariant
  = convertPreservingEmphasis text targetVariant.
Proof.
  destruct (lookup_cases targetVariant) as [Hu|HL].
  { by rewrite !(convert_undefined_variant _ _ Hu). }
  assert (variantEmphasisMap_get targetVariant ≠ undefinedValue) as Hdef.
  { intros Hu. rewrite Hu in HL. unfold allLookups in HL.
    rewrite elem_of_cons, list_elem_of_fmap in HL.
    destruct HL as [HL|(x & HL & _)]; discriminate HL. }
  rewrite (convert_by_groups (convertPreservingEmphasis text targetVariant)) by exact Hdef.
  rewrite (convert_segments _ _ HL). cbn [snd].
  rewrite (convert_by_groups text) by exact Hdef.
  set (L := variantEmphasisMap_get targetVariant) in *.
  unfold convertGroups. rewrite <- list_fmap_compose. f_equal.
  destruct (groups_of_text text) as [Hgs Hcan].
  pose proof (canonical_shapes _ Hcan) as Hshapes. unfold flatten in Hshapes. clear Hcan.
  induction Hgs as [|g gs [Hb _] _ IH]; [reflexivity|].
  rewrite bind_cons in Hshapes. apply Forall_app in Hshapes as [Hg Hrest].
  apply Forall_cons in Hg as [Hg _].
  cbn [fmap list_fmap compose fst snd]. f_equal; [|by apply IH].
  destruct (base_facts L g.1 HL Hg Hb) as (_ & _ & -> & _). reflexivity.
Qed.

(** X11. Converting twice to the same variant gives what converting once
    gives, for every text and every variant name. *)
Theorem convert_idempotent (text targetVariant : jsstring) :
  convertPreservingEmphasis (convertPreservingEmphasis text targetVariant) targetVariant
  = convertPreservingEmphasis text targetVariant.
Proof. apply convert_twice. Qed.

(** X12. Read code point by code point, the converted text has no leading
    mark, has the converted base characters of the text in their order, and
    each of them is followed by the marks its original had. *)
Theorem convert_reads_back (text targetVariant : jsstring) :
  variantEmphasisMap_get targetVariant ≠ undefinedValue →
  let before := segment (Array_from text) in
  let after := segment (Array_from (convertPreservingEmphasis text targetVariant)) in
  after.1 = []
  ∧ after.2.*2 = before.2.*2
  ∧ after.2.*1 = convertBase (variantEmphasisMap_get targetVariant) <$> before.2.*1.
Proof.
  intros HL%defined_lookup. cbv zeta. rewrite (convert_segments _ _ HL). cbn [fst snd].
  unfold convertGroups. rewrite <- !list_fmap_compose. auto.
Qed.

Lemma convert_reads_back_witness :
  let text := [0x0336] ++ [0xD835; 0xDC00] ++ [0x0332] ++ str "b" ++ [0x0336; 0x0332] in
  variantEmphasisMap_get (str "script") ≠ undefinedValue
  ∧ (segment (Array_from (convertPreservingEmphasis text (str "script")))).2.*2
    = [[[0x0332]]; [[0x0336]; [0x0332]]].
Proof.
  intros text.
  assert (variantEmphasisMap_get (str "script") ≠ undefinedValue) as Hdef.
  { vm_compute. discriminate. }
  split; [exact Hdef|].
  rewrite (proj1 (proj2 (convert_reads_back text (str "script") Hdef))).
  vm_compute. reflexivity.
Defined.

Lemma bases_converted {A} (text targetVariant : jsstring) (f : jsstring → A) :
  (variantEmphasisMap_get targetVariant ∈ allLookups →
   ∀ b, codePointShape b = true → isCombiningChar b = false →
        f (convertBase (variantEmphasisMap_get targetVariant) b) = f b) →
  f <$> bases (convertPreservingEmphasis text targetVariant) = f <$> bases text.
Proof.
  intros Hf. destruct (lookup_cases targetVariant) as [Hu|HL].
  { by rewrite (convert_undefined_variant _ _ Hu). }
  unfold bases. rewrite (convert_segments _ _ HL). cbn [snd].
  unfold convertGroups. rewrite <- !list_fmap_compose.
  destruct (groups_of_text text) as [Hgs Hcan].
  pose proof (canonical_shapes _ Hcan) as Hshapes. unfold flatten in Hshapes. clear Hcan.
  induction Hgs as [|g gs [Hb _] _ IH]; [reflexivity|].
  rewrite bind_cons in Hshapes. apply Forall_app in Hshapes as [Hg Hrest].
  apply Forall_cons in Hg as [Hg _].
  cbn [fmap list_fmap compose fst snd]. f_equal; [by apply (Hf HL) | by apply IH].
Qed.

(** X13. The conversion changes the style only: the plain characters
    detected in the converted text are those detected in the text. *)
Theorem convert_keeps_letters (text targetVariant : jsstring) :
  (plain ∘ detectCharEmphasis) <$> bases (convertPreservingEmphasis text targetVariant)
  = (plain ∘ detectCharEmphasis) <$> bases text.
Proof.
  apply bases_converted. intros HL b Hs Hb. cbn [compose].
  apply (base_facts _ b HL Hs Hb).
Qed.

(** X14. The conversions to [sansNormal] and to [normal] keep the emphasis of
    every base character, italic and bold italic as well as bold and none. *)
Theorem convert_keeps_emphasis (text : jsstring) :
  (emphasis ∘ detectCharEmphasis) <$> bases (convertPreservingEmphasis text (str "sansNormal"))
  = (emphasis ∘ detectCharEmphasis) <$> bases text
  ∧ (emphasis ∘ detectCharEmphasis) <$> bases (convertPreservingEmphasis text (str "normal"))
    = (emphasis ∘ detectCharEmphasis) <$> bases text.
Proof.
  split; apply bases_converted; intros _ b Hs _; cbn [compose];
    (apply emphasis_kept; [|exact Hs]); unfold keepingLookups; set_solver.
Qed.

Lemma mark_unstyled (c : jsstring) : isCombiningChar c = true → unstyleChar c = c.
Proof.
  intros Hc. destruct (unstyleChar_cases c) as [[_ H]|(a & Ha & _ & Hr)]; [exact H|].
  destruct (reverseMap_lookup _ _ Hr) as [name Hin].
  destruct (styledEntries_elem _ _ _ Hin) as (_ & _ & Hfree & _).
  unfold isCombiningChar in Hc. apply orb_true_iff in Hc as [Hc|Hc];
    apply streq_eq in Hc; subst c; discriminate Hfree.
Qed.

Lemma removal_after_convert (text targetVariant : jsstring) :
  (segment (Array_from text)).1 = [] →
  removeUnicodeFormatting (convertPreservingEmphasis text targetVariant) true
  = removeUnicodeFormatting text true.
Proof.
  intros Hlead. destruct (lookup_cases targetVariant) as [Hu|HL].
  { by rewrite (convert_undefined_variant _ _ Hu). }
  destruct (removal_chars (convertPreservingEmphasis text targetVariant) true) as [-> _].
  destruct (removal_chars text true) as [-> _]. unfold charsRead.
  destruct (convert_reread text targetVariant HL) as [-> _].
  rewrite (segment_flatten (Array_from text)) at 2. rewrite Hlead. cbn [app].
  destruct (groups_of_text text) as [Hgs Hcan].
  rewrite (flatten_convertGroups _ _ Hgs), <- list_fmap_compose. f_equal.
  pose proof (canonical_shapes _ Hcan) as Hshapes.
  apply Forall_fmap_ext. eapply Forall_impl; [exact Hshapes|].
  intros e He. cbn [compose]. cbn beta in He.
  destruct (isCombiningChar e) eqn:Hc; [reflexivity|].
  rewrite <- !detect_plain_unstyle. apply (base_facts _ e HL He Hc).
Qed.

(** X15. For a text that does not start with a combining mark, stripping the
    letter styles (marks kept) after a conversion gives what stripping them
    from the text gives: every variant of a text has the same Normal form. *)
Theorem normal_variant_after_convert (text targetVariant : jsstring) :
  (segment (Array_from text)).1 = [] →
  removeUnicodeFormatting (convertPreservingEmphasis text targetVariant) true
  = removeUnicodeFormatting text true.
Proof. apply removal_after_convert. Qed.

Lemma normal_variant_after_convert_witness :
  let text := [0xD835; 0xDC00] ++ [0x0332] ++ str "b c" in
  (segment (Array_from text)).1 = []
  ∧ removeUnicodeFormatting (convertPreservingEmphasis text (str "monospace")) true
    = str "A" ++ [0x0332] ++ str "b c".
Proof.
  intros text.
  assert ((segment (Array_from text)).1 = []) as Hlead by (vm_compute; reflexivity).
  split; [exact Hlead|].
  rewrite (normal_variant_after_convert text (str "monospace") Hlead).
  vm_compute. reflexivity.
Defined.

(** ** The lines of the list formatters *)

Section ListLines.

Lemma split_newline_no_newline (line : jsstring) :
  0x0A ∉ line → split_newline line = [line].
Proof.
  induction line as [|u line IH]; [reflexivity|].
  rewrite not_elem_of_cons. intros [Hu Hline]. cbn [split_newline].
  rewrite (proj2 (Z.eqb_neq u 10)) by congruence. by rewrite IH.
Qed.

Lemma split_newline_app (line rest : jsstring) :
  0x0A ∉ line →
  split_newline (line ++ NEWLINE ++ rest) = line :: split_newline rest.
Proof.
  induction line as [|u line IH].
  - intros _. reflexivity.
  - rewrite not_elem_of_cons. intros [Hu Hline]. cbn [app split_newline].
    rewrite (proj2 (Z.eqb_neq u 10)) by congruence. by rewrite IH.
Qed.

Lemma split_join_newline (lines : list jsstring) :
  Forall (λ line, 0x0A ∉ line) lines → lines ≠ [] →
  split_newline (join NEWLINE lines) = lines.
Proof.
  induction 1 as [|line lines Hline Hlines IH]; [done|]. intros _.
  destruct lines as [|l2 lines]; [by apply split_newline_no_newline|].
  rewrite join_cons, split_newline_app by exact Hline. f_equal. by apply IH.
Qed.

Lemma trim_no_newline (line : jsstring) : 0x0A ∉ line → 0x0A ∉ trim line.
Proof.
  destruct (trim_split line) as (pre & post & Hl & _). intros Hno Hin. apply Hno.
  rewrite Hl, !elem_of_app. auto.
Qed.

Lemma keptLines_no_newline (text : jsstring) :
  Forall (λ line, 0x0A ∉ line) (keptLines text).
Proof.
  rewrite keptLines_not_blank. apply Forall_forall. intros line Hin.
  apply list_elem_of_In, filter_In in Hin as [Hin _]. apply list_elem_of_In in Hin.
  pose proof (split_newline_lines text) as Hall. rewrite Forall_forall in Hall. by apply Hall.
Qed.

Lemma uint_digits (d : Decimal.uint) :
  Forall (λ u, 0x30 ≤ u ≤ 0x39) (str (DecimalString.NilZero.string_of_uint d)).
Proof.
  assert (Forall (λ u, 0x30 ≤ u ≤ 0x39) (str (DecimalString.NilEmpty.string_of_uint d))) as H.
  { induction d; cbn [DecimalString.NilEmpty.string_of_uint];
      try (by constructor); (constructor; [vm_compute; split; discriminate | exact IHd]). }
  destruct d; try exact H. repeat constructor; vm_compute; discriminate.
Qed.

Lemma numberToString_no_newline (n : nat) : 0x0A ∉ numberToString n.
Proof.
  intros Hin. pose proof (uint_digits (Nat.to_uint n)) as Hd.
  rewrite Forall_forall in Hd. specialize (Hd _ Hin). lia.
Qed.

Lemma marked_lines (marker : jsstring) (text : jsstring) :
  0x0A ∉ marker →
  Forall (λ line, 0x0A ∉ line)
         ((λ line, marker ++ str " " ++ trim line) <$> keptLines text).
Proof.
  intros Hm. apply Forall_fmap. eapply Forall_impl; [apply keptLines_no_newline|].
  intros line Hline. cbn [compose]. rewrite !elem_of_app.
  intros [H|[H|H]]; [done| |by apply (trim_no_newline line)].
  change (str " ") with [0x20] in H. rewrite elem_of_cons, elem_of_nil in H.
  destruct H as [H|[]]; discriminate H.
Qed.

Lemma markerList_lines (marker : jsstring) (text : jsstring) :
  0x0A ∉ marker →
  (keptLines text = [] → markerList marker text = [])
  ∧ (keptLines text ≠ [] →
     split_newline (markerList marker text)
     = (λ line, marker ++ str " " ++ trim line) <$> keptLines text).
Proof.
  intros Hm. unfold markerList. split.
  - by intros ->.
  - intros Hne. apply split_join_newline; [by apply marked_lines|].
    by destruct (keptLines text).
Qed.

Lemma numbered_lines (text : jsstring) :
  (keptLines text = [] → toNumberedList text = [])
  ∧ (keptLines text ≠ [] →
     split_newline (toNumberedList text)
     = imap (λ i line, numberToString (i + 1) ++ str ". " ++ trim line) (keptLines text)).
Proof.
  unfold toNumberedList. split.
  - by intros ->.
  - intros Hne. apply split_join_newline; [|by destruct (keptLines text)].
    apply Forall_forall. intros l [i [line [-> Hline]]]%elem_of_lookup_imap.
    pose proof (keptLines_no_newline text) as Hall. rewrite Forall_forall in Hall.
    assert (0x0A ∉ line) as Hl by (apply Hall; by eapply list_elem_of_lookup_2).
    rewrite !elem_of_app. intros [H|[H|H]].
    + by apply (numberToString_no_newline (i + 1)).
    + change (str ". ") with [0x2E; 0x20] in H. rewrite !elem_of_cons, elem_of_nil in H.
      destruct H as [H|[H|[]]]; discriminate H.
    + by apply (trim_no_newline line).
Qed.

End ListLines.

(** ** The app lock, in use *)

Section AppLockFacts.

Variable hashPin : jsstring → jsstring.

Lemma locked_later (settings : AppLockSettings) (now later : Z) :
  now ≤ later → shouldAppBeLocked settings now = true →
  shouldAppBeLocked settings later = true.
Proof.
  unfold shouldAppBeLocked. intros Hle.
  destruct (negb (isEnabled settings) || _); [done|].
  destruct (lastUnlockTime settings) as [last|]; [|done].
  destruct (last =? 0); [done|]. lia.
Qed.

Lemma locked_shorter (settings : AppLockSettings) (t t' : LockTiming) (now : Z) :
  timingMs t ≤ timingMs t' →
  shouldAppBeLocked (setLockTiming t' settings) now = true →
  shouldAppBeLocked (setLockTiming t settings) now = true.
Proof.
  unfold shouldAppBeLocked, setLockTiming. cbn [isEnabled pinHash lastUnlockTime lockTiming].
  intros Hle. destruct (negb (isEnabled settings) || _); [done|].
  destruct (lastUnlockTime settings) as [last|]; [|done].
  destruct (last =? 0); [done|]. lia.
Qed.

(** X18. After [updateLastUnlockTime] at a time other than 0, with the lock
    enabled and a PIN set, the app should be locked exactly from the lock
    timing on; with [immediately] that is at once. *)
Theorem unlock_grace (settings : AppLockSettings) (now later : Z) :
  isEnabled settings = true → is_Some (truthy (pinHash settings)) → now ≠ 0 →
  shouldAppBeLocked (updateLastUnlockTime now settings) later
  = (timingMs (lockTiming settings) <=? later - now).
Proof.
  intros He Hp Hnow. unfold shouldAppBeLocked, updateLastUnlockTime.
  cbn [isEnabled pinHash lastUnlockTime lockTiming]. rewrite He.
  rewrite (bool_decide_eq_true_2 _ Hp). cbn [negb orb].
  by rewrite (proj2 (Z.eqb_neq now 0) Hnow).
Qed.

(** X19. From the default settings, no run of calls without [enableAppLock]
    makes [shouldAppBeLocked] true. *)
Theorem never_locked_unless_enabled (calls : list call) (now : Z) :
  forallb (λ c, negb (isEnable c)) calls = true →
  shouldAppBeLocked (foldl (perform hashPin) DEFAULT_SETTINGS calls) now = false.
Proof.
  intros Hcalls.
  assert (isEnabled (foldl (perform hashPin) DEFAULT_SETTINGS calls) = false) as Hoff.
  { assert (isEnabled DEFAULT_SETTINGS = false) as H0 by reflexivity. revert H0.
    generalize DEFAULT_SETTINGS. induction calls as [|c calls IH]; intros s Hs; [exact Hs|].
    cbn [forallb] in Hcalls. apply andb_true_iff in Hcalls as [Hc Hcalls].
    cbn [foldl]. apply IH; [exact Hcalls|].
    destruct c; try discriminate Hc; cbn [perform]; try exact Hs; try reflexivity.
    unfold changePin. destruct (truthy (pinHash s)); [|exact Hs].
    destruct (verifyPin hashPin oldPin l); exact Hs. }
  unfold shouldAppBeLocked. rewrite Hoff. reflexivity.
Qed.

(** X20. [changePin] succeeds exactly when a PIN is set and the old PIN
    hashes to it; a failure leaves the settings as they were; a success
    stores the hash of the new PIN, which then verifies, stamps the unlock
    time and keeps the other fields. *)
Theorem changePin_outcome (oldPin newPin : jsstring) (now : Z) (settings : AppLockSettings) :
  let r := changePin hashPin oldPin newPin now settings in
  (r.1 = true ↔ ∃ stored, truthy (pinHash settings) = Some stored ∧ hashPin oldPin = stored)
  ∧ (r.1 = false → r.2 = settings)
  ∧ (r.1 = true →
       pinHash r.2 = Some (hashPin newPin) ∧ verifyPin hashPin newPin (hashPin newPin) = true
       ∧ lastUnlockTime r.2 = Some now
       ∧ isEnabled r.2 = isEnabled settings ∧ lockTiming r.2 = lockTiming settings
       ∧ securityQuestions r.2 = securityQuestions settings
       ∧ biometricEnabled r.2 = biometricEnabled settings).
Proof.
  cbv zeta. unfold changePin, verifyPin.
  destruct (truthy (pinHash settings)) as [stored|] eqn:Hp.
  - destruct (streq (hashPin oldPin) stored) eqn:Hv; cbn [fst snd].
    + apply streq_eq in Hv. repeat split; try done; eauto. apply streq_refl.
    + apply streq_neq in Hv. repeat split; try done.
      intros (s & [= <-] & Hs). done.
  - cbn [fst snd]. repeat split; try done. intros (s & Hs & _). done.
Qed.

Lemma changePin_true (oldPin newPin : jsstring) (now : Z) (settings : AppLockSettings) :
  (changePin hashPin oldPin newPin now settings).1 = true →
  truthy (pinHash settings) = Some (hashPin oldPin)
  ∧ changePin hashPin oldPin newPin now settings
    = (true, mkSettings (isEnabled settings) (Some (hashPin newPin))
                        (securityQuestions settings) (biometricEnabled settings)
                        (lockTiming settings) (Some now)).
Proof.
  unfold changePin, verifyPin.
  destruct (truthy (pinHash settings)) as [stored|]; [|done].
  destruct (streq (hashPin oldPin) stored) eqn:Hv; [|done].
  apply streq_eq in Hv as ->. done.
Qed.

(** X21. After a successful [changePin], changing back from the new PIN to
    the old one succeeds and restores the stored hash, provided the hash of
    the new PIN is not the empty string. *)
Theorem changePin_back (oldPin newPin : jsstring) (now now' : Z) (settings : AppLockSettings) :
  hashPin newPin ≠ [] →
  (changePin hashPin oldPin newPin now settings).1 = true →
  let back := changePin hashPin newPin oldPin now' (changePin hashPin oldPin newPin now settings).2 in
  back.1 = true ∧ pinHash back.2 = pinHash settings.
Proof.
  intros Hne [Hp ->]%changePin_true. cbn [snd]. cbv zeta.
  unfold changePin, verifyPin. cbn [pinHash].
  destruct (hashPin newPin) as [|u r] eqn:Hn; [done|]. cbn [truthy].
  rewrite streq_refl. cbn [fst snd pinHash]. split; [done|].
  destruct (pinHash settings) as [[|? ?]|]; try discriminate Hp.
  cbn [truthy] in Hp. by injection Hp as <-.
Qed.

End AppLockFacts.

(** ** The editor, in use *)

Section EditorFacts.

Lemma last50_short (l : list jsstring) : (length l ≤ 50)%nat → last50 l = l.
Proof. intros H. unfold last50. replace (length l - 50)%nat with 0%nat by lia. done. Qed.

Lemma updateContent_history (c : jsstring) (st : EditorState) :
  editorOk st →
  let st' := updateContent c st in
  (length (history st') ≤ 50)%nat
  ∧ history st' !! historyIndex st' = Some c
  ∧ (historyIndex st' = S (Nat.pred (historyIndex st')))
  ∧ history st' !! Nat.pred (historyIndex st') = content st.
Proof.
  intros (Hc & Hidx & Hlen). cbv zeta. unfold updateContent. cbn [history historyIndex].
  set (i := historyIndex st) in *. set (h := history st) in *.
  assert (i < length h)%nat as Hi.
  { apply lookup_lt_is_Some. rewrite Hidx. exact Hc. }
  assert (length (take (i + 1) h ++ [c]) = (i + 2)%nat) as Hl.
  { rewrite length_app, length_take. cbn [length]. lia. }
  unfold last50. rewrite Hl.
  destruct (decide (i = 49)%nat) as [->|Hne].
  - (* the history is full: its first entry goes *)
    replace (49 + 2 - 50)%nat with 1%nat by lia.
    replace (Nat.min (49 + 1) 49) with 49%nat by lia.
    rewrite length_drop, Hl. repeat split; [lia| |].
    + rewrite lookup_drop, lookup_app_r; rewrite length_take; [|lia].
      replace (1 + 49 - (49 + 1) `min` length h)%nat with 0%nat by lia. done.
    + cbn [Nat.pred]. rewrite lookup_drop, lookup_app_l by (rewrite length_take; lia).
      rewrite lookup_take_lt by lia. exact Hidx.
  - replace (i + 2 - 50)%nat with 0%nat by lia. rewrite drop_0, Hl.
    replace (Nat.min (i + 1) 49) with (i + 1)%nat by lia.
    repeat split; [lia| |lia|].
    + rewrite lookup_app_r; rewrite length_take; [|lia].
      replace (i + 1 - (i + 1) `min` length h)%nat with 0%nat by lia. done.
    + replace (Nat.pred (i + 1)) with i by lia.
      rewrite lookup_app_l by (rewrite length_take; lia).
      rewrite lookup_take_lt by lia. exact Hidx.
Qed.

Lemma updateContent_ok (c : jsstring) (st : EditorState) :
  editorOk st → editorOk (updateContent c st).
Proof.
  intros Hok. destruct (updateContent_history c st Hok) as (Hlen & Hidx & _).
  split; [by eexists|]. split; [exact Hidx | exact Hlen].
Qed.

Lemma undo_ok (st : EditorState) : editorOk st → editorOk (undo st).
Proof.
  intros (Hc & Hidx & Hlen). unfold undo.
  destruct (0 <? Z.of_nat (historyIndex st)) eqn:Hpos; [|done].
  apply Z.ltb_lt in Hpos. split; [|split]; cbn [content history historyIndex]; [|done|done].
  apply lookup_lt_is_Some.
  assert (historyIndex st < length (history st))%nat; [|lia].
  apply lookup_lt_is_Some. by rewrite Hidx.
Qed.

Lemma redo_ok (st : EditorState) : editorOk st → editorOk (redo st).
Proof.
  intros (Hc & Hidx & Hlen). unfold redo.
  destruct (_ <? _) eqn:Hlt; [|done].
  apply Z.ltb_lt in Hlt. split; [|split]; cbn [content history historyIndex]; [|done|done].
  apply lookup_lt_is_Some. lia.
Qed.

(** X23. Undo right after an edit gives the content before the edit, and redo
    after that undo gives the state after the edit, also when the history is
    full. *)
Theorem undo_updateContent (c : jsstring) (st : EditorState) :
  editorOk st →
  content (undo (updateContent c st)) = content st
  ∧ redo (undo (updateContent c st)) = updateContent c st.
Proof.
  intros Hok. destruct (updateContent_history c st Hok) as (Hlen & Hidx & Hpos & Hprev).
  set (st' := updateContent c st) in *.
  assert (content st' = Some c) as Hc' by reflexivity.
  unfold undo.
  assert ((0 <? Z.of_nat (historyIndex st')) = true) as -> by (apply Z.ltb_lt; lia).
  cbv zeta. replace (historyIndex st' - 1)%nat with (Nat.pred (historyIndex st')) by lia.
  cbn [content]. split; [exact Hprev|].
  unfold redo. cbn [history historyIndex].
  assert (historyIndex st' < length (history st'))%nat as Hi.
  { apply lookup_lt_is_Some. rewrite Hidx. by eexists. }
  assert ((Z.of_nat (Nat.pred (historyIndex st')) <? Z.of_nat (length (history st')) - 1)
          = true) as -> by (apply Z.ltb_lt; lia).
  cbv zeta. replace (Nat.pred (historyIndex st') + 1)%nat with (historyIndex st') by lia.
  rewrite Hidx. destruct st' as [c' h' i']. cbn in *. by subst.
Qed.

End EditorFacts.

Section SelectionFacts.

Lemma substring_ordered (s : jsstring) (a b : Z) :
  0 ≤ a ≤ b → b ≤ Z.of_nat (length s) →
  substring s a b = take (Z.to_nat (b - a)) (drop (Z.to_nat a) s).
Proof.
  intros Ha Hb. unfold substring. cbv zeta.
  replace (Z.max 0 (Z.min a (Z.of_nat (length s)))) with a by lia.
  replace (Z.max 0 (Z.min b (Z.of_nat (length s)))) with b by lia.
  replace (Z.min a b) with a by lia. replace (Z.max a b) with b by lia. reflexivity.
Qed.

Lemma substring_parts (pre mid post : jsstring) :
  let s := pre ++ mid ++ post in
  let a := Z.of_nat (length pre) in
  let b := a + Z.of_nat (length mid) in
  substring s 0 a = pre ∧ substring s a b = mid ∧ substringFrom s b = post.
Proof.
  cbv zeta. unfold substringFrom.
  rewrite !substring_ordered by (rewrite ?length_app; lia).
  rewrite !length_app. repeat split.
  - change (Z.to_nat 0) with 0%nat. rewrite drop_0.
    apply take_app_length'. lia.
  - rewrite (drop_app_length' pre) by lia. apply take_app_length'. lia.
  - rewrite app_assoc, drop_app_length' by (rewrite length_app; lia).
    apply take_ge. lia.
Qed.

Lemma content_parts (s : jsstring) (a b : Z) :
  0 ≤ a ≤ b → b ≤ Z.of_nat (length s) →
  s = substring s 0 a ++ substring s a b ++ substringFrom s b
  ∧ Z.of_nat (length (substring s 0 a)) = a.
Proof.
  intros Ha Hb. unfold substringFrom.
  rewrite !substring_ordered by lia. rewrite Z.sub_0_r.
  change (Z.to_nat 0) with 0%nat. rewrite drop_0.
  split.
  - rewrite (take_ge (drop (Z.to_nat b) s)) by (rewrite length_drop; lia).
    rewrite <- (take_drop (Z.to_nat a) s) at 1. f_equal.
    rewrite <- (take_drop (Z.to_nat (b - a)) (drop (Z.to_nat a) s)) at 1. f_equal.
    rewrite drop_drop. f_equal. lia.
  - rewrite length_take. lia.
Qed.

Lemma styled_not_empty (text : jsstring) (S : UnicodeStyle) :
  Forall (λ u, isAsciiAlnum u = true) text → S ∈ letterStyles → text ≠ [] →
  toUnicodeStyle text S ≠ [].
Proof.
  intros Htext HS Hne Hnil.
  pose proof (removal_of_letter_style text S false Htext HS) as Hr.
  rewrite Hnil in Hr. by vm_compute in Hr.
Qed.

(** X24. Applying a letter style to a selection of ASCII letters and digits
    and then clearing the formatting of the selection it sets gives back
    the content. *)
Theorem style_then_clear (content : jsstring) (start end_ : Z) (S : UnicodeStyle) :
  0 ≤ start < end_ → end_ ≤ Z.of_nat (length content) →
  Forall (λ u, isAsciiAlnum u = true) (substring content start end_) →
  S ∈ letterStyles →
  ∃ content' sel,
    applyStyle content start end_ S = Some (content', sel)
    ∧ clearFormatting content' sel.1 sel.2 = content.
Proof.
  intros Hs He Htext HS.
  destruct (content_parts content start end_) as [Hparts Hlen]; [lia|lia|].
  set (pre := substring content 0 start) in *.
  set (text := substring content start end_) in *.
  set (post := substringFrom content end_) in *.
  assert (text ≠ []) as Hne.
  { unfold text. rewrite substring_ordered by lia. intros Hnil.
    apply (f_equal length) in Hnil. rewrite length_take, length_drop in Hnil.
    cbn [length] in Hnil. lia. }
  unfold applyStyle. fold text pre post.
  destruct text as [|u text'] eqn:Et; [done|]. cbn [truthy]. rewrite <- Et in *.
  eexists _, _. split; [reflexivity|]. cbn [fst snd].
  destruct (substring_parts pre (toUnicodeStyle text S) post) as (H1 & H2 & H3).
  rewrite Hlen in H1, H2, H3. unfold clearFormatting. rewrite H1, H2, H3.
  destruct (toUnicodeStyle text S) as [|v styled] eqn:Es.
  { exfalso. by apply (styled_not_empty text S). }
  cbn [truthy]. rewrite <- Es, (removal_of_letter_style text S false Htext HS).
  symmetry. exact Hparts.
Qed.

End SelectionFacts.

(** ** Further properties and instances *)

Lemma roundtrip_preserving_combining_witness :
  Forall (λ u, isAsciiAlnum u = true) (str "Note7")
  ∧ doublestruck ∈ letterStyles
  ∧ removeUnicodeFormatting (toUnicodeStyle (str "Note7") doublestruck) true = str "Note7".
Proof.
  assert (Forall (λ u, isAsciiAlnum u = true) (str "Note7")) as Ht.
  { repeat constructor. }
  assert (doublestruck ∈ letterStyles) as HS.
  { unfold letterStyles. set_solver. }
  split; [exact Ht|]. split; [exact HS|].
  exact (roundtrip_preserving_combining _ _ Ht HS).
Defined.

Lemma detection_agrees_with_removal_witness :
  codePointShape [0xD835; 0xDC68] = true
  ∧ emphasis (detectCharEmphasis [0xD835; 0xDC68]) ≠ Em.none
  ∧ removeUnicodeFormatting [0xD835; 0xDC68] true = plain (detectCharEmphasis [0xD835; 0xDC68])
  ∧ removeUnicodeFormatting [0xD835; 0xDC68] false ≠ [0xD835; 0xDC68].
Proof.
  assert (codePointShape [0xD835; 0xDC68] = true) as Hshape by reflexivity.
  assert (emphasis (detectCharEmphasis [0xD835; 0xDC68]) ≠ Em.none) as Hem.
  { vm_compute. discriminate. }
  destruct (detection_agrees_with_removal [0xD835; 0xDC68] Hshape) as (Hkeep & _ & _ & Hchange).
  split; [exact Hshape|]. split; [exact Hem|]. split; [exact Hkeep|].
  exact (Hchange Hem false).
Defined.

(** X16. A text with blank lines only gives the empty string; otherwise the
    result splits on newlines into exactly one line per remaining line of
    the text, in order, each with its marker or its number. *)
Theorem list_output_lines (text : jsstring) :
  let kept := keptLines text in
  (kept = [] →
     toBulletList text = [] ∧ toNumberedList text = [] ∧ toCheckboxList text = []
     ∧ toAscendingList text = [] ∧ toDescendingList text = [])
  ∧ (kept ≠ [] →
     split_newline (toBulletList text) = (λ line, [0x2022; 0x20] ++ trim line) <$> kept
     ∧ split_newline (toCheckboxList text) = (λ line, [0x2610; 0x20] ++ trim line) <$> kept
     ∧ split_newline (toAscendingList text) = (λ line, [0x2197; 0x20] ++ trim line) <$> kept
     ∧ split_newline (toDescendingList text) = (λ line, [0x2198; 0x20] ++ trim line) <$> kept
     ∧ split_newline (toNumberedList text)
       = imap (λ i line, numberToString (i + 1) ++ str ". " ++ trim line) kept).
Proof.
  cbv zeta.
  assert (∀ m : Z, m ≠ 0x0A → (0x0A : Z) ∉ [m]) as Hm.
  { intros m Hne. rewrite elem_of_cons, elem_of_nil. intros [H|[]]. congruence. }
  pose proof (markerList_lines [0x2022] text (Hm 0x2022 ltac:(lia))) as [B0 B1].
  pose proof (markerList_lines [0x2610] text (Hm 0x2610 ltac:(lia))) as [C0 C1].
  pose proof (markerList_lines [0x2197] text (Hm 0x2197 ltac:(lia))) as [A0 A1].
  pose proof (markerList_lines [0x2198] text (Hm 0x2198 ltac:(lia))) as [D0 D1].
  pose proof (numbered_lines text) as [N0 N1].
  unfold toBulletList, toCheckboxList, toAscendingList, toDescendingList.
  split; intros Hk; auto 10.
Qed.

Lemma list_output_lines_witness :
  keptLines (str " one" ++ NEWLINE ++ NEWLINE ++ str "two ") ≠ []
  ∧ split_newline (toNumberedList (str " one" ++ NEWLINE ++ NEWLINE ++ str "two "))
    = [str "1. one"; str "2. two"].
Proof.
  assert (keptLines (str " one" ++ NEWLINE ++ NEWLINE ++ str "two ") ≠ []) as Hk.
  { vm_compute. discriminate. }
  split; [exact Hk|].
  destruct (list_output_lines (str " one" ++ NEWLINE ++ NEWLINE ++ str "two ")) as [_ H].
  destruct (H Hk) as (_ & _ & _ & _ & ->). vm_compute. reflexivity.
Defined.

(** X17. Once the app should be locked it should be locked at every later
    time, and a shorter lock timing locks whenever a longer one does. *)
Theorem lock_monotone (settings : AppLockSettings) (t t' : LockTiming) (now later : Z) :
  timingMs t ≤ timingMs t' → now ≤ later →
  shouldAppBeLocked (setLockTiming t' settings) now = true →
  shouldAppBeLocked (setLockTiming t settings) later = true.
Proof.
  intros Ht Hn H. apply (locked_later _ now later Hn).
  by apply (locked_shorter settings t t').
Qed.

Lemma lock_monotone_witness :
  timingMs after1minute ≤ timingMs after5minutes
  ∧ 1700000300000 ≤ 1700000300001
  ∧ shouldAppBeLocked (setLockTiming after5minutes lockedSettings) 1700000300000 = true
  ∧ shouldAppBeLocked (setLockTiming after1minute lockedSettings) 1700000300001 = true.
Proof.
  assert (timingMs after1minute ≤ timingMs after5minutes) as Ht by (vm_compute; discriminate).
  assert (1700000300000 ≤ 1700000300001) as Hn by lia.
  assert (shouldAppBeLocked (setLockTiming after5minutes lockedSettings) 1700000300000 = true)
    as Hl by reflexivity.
  repeat (split; [assumption|]).
  exact (lock_monotone lockedSettings _ _ _ _ Ht Hn Hl).
Defined.

Lemma unlock_grace_witness :
  isEnabled lockedSettings = true ∧ is_Some (truthy (pinHash lockedSettings))
  ∧ 1700000400000 ≠ 0
  ∧ shouldAppBeLocked (updateLastUnlockTime 1700000400000 lockedSettings) 1700000699999 = false
  ∧ shouldAppBeLocked (updateLastUnlockTime 1700000400000 lockedSettings) 1700000700000 = true.
Proof.
  assert (isEnabled lockedSettings = true) as He by reflexivity.
  assert (is_Some (truthy (pinHash lockedSettings))) as Hp by (by eexists).
  assert (1700000400000 ≠ 0) as Hn by lia.
  split; [exact He|]. split; [exact Hp|]. split; [exact Hn|].
  rewrite !(unlock_grace lockedSettings 1700000400000 _ He Hp Hn). split; reflexivity.
Defined.

Lemma never_locked_unless_enabled_witness :
  let calls := [callReset (str "1234") 1700000000000; callTiming after1minute;
                callUnlock 1700000000500; callBiometric true] in
  forallb (λ c, negb (isEnable c)) calls = true
  ∧ shouldAppBeLocked (foldl (perform saltedPin) DEFAULT_SETTINGS calls) 1800000000000 = false.
Proof.
  intros calls.
  assert (forallb (λ c, negb (isEnable c)) calls = true) as Hc by reflexivity.
  split; [exact Hc|]. exact (never_locked_unless_enabled saltedPin calls _ Hc).
Defined.

Lemma changePin_outcome_witness :
  let settings := enableAppLock saltedPin (str "1234") [] 1700000000000 DEFAULT_SETTINGS in
  (changePin saltedPin (str "1234") (str "9876") 1700000000100 settings).1 = true
  ∧ (changePin saltedPin (str "0000") (str "9876") 1700000000100 settings).2 = settings.
Proof.
  intros settings.
  destruct (changePin_outcome saltedPin (str "1234") (str "9876") 1700000000100 settings)
    as (Hiff & _).
  destruct (changePin_outcome saltedPin (str "0000") (str "9876") 1700000000100 settings)
    as (_ & Hfail & _).
  split.
  - apply Hiff. eexists. split; reflexivity.
  - apply Hfail. reflexivity.
Defined.

Lemma changePin_back_witness :
  let settings := enableAppLock saltedPin (str "1234") [] 1700000000000 DEFAULT_SETTINGS in
  saltedPin (str "9876") ≠ []
  ∧ (changePin saltedPin (str "1234") (str "9876") 1700000000100 settings).1 = true
  ∧ pinHash (changePin saltedPin (str "9876") (str "1234") 1700000000200
               (changePin saltedPin (str "1234") (str "9876") 1700000000100 settings).2).2
    = pinHash settings.
Proof.
  intros settings.
  assert (saltedPin (str "9876") ≠ []) as Hne by (vm_compute; discriminate).
  assert ((changePin saltedPin (str "1234") (str "9876") 1700000000100 settings).1 = true)
    as Hok by reflexivity.
  split; [exact Hne|]. split; [exact Hok|].
  exact (proj2 (changePin_back saltedPin _ _ _ 1700000000200 settings Hne Hok)).
Defined.

(** X22. Whatever edits, undos and redos follow the first render, the content
    is a string, it is the entry of the history at [historyIndex], and the
    history has at most 50 entries. *)
Theorem editor_history_ok (initialContent : jsstring) (events : list event) :
  editorOk (foldl handle (initialState initialContent) events).
Proof.
  assert (editorOk (initialState initialContent)) as H0.
  { split; [by eexists|]. split; [reflexivity|]. cbn. lia. }
  revert H0. generalize (initialState initialContent).
  induction events as [|e events IH]; intros st Hst; [exact Hst|].
  cbn [foldl]. apply IH. destruct e; cbn [handle].
  - by apply updateContent_ok.
  - by apply undo_ok.
  - by apply redo_ok.
Qed.

Lemma undo_updateContent_witness :
  let st := updateContent (str "draft 2") (initialState (str "draft 1")) in
  editorOk st
  ∧ content (undo (updateContent (str "draft 3") st)) = Some (str "draft 2")
  ∧ redo (undo (updateContent (str "draft 3") st)) = updateContent (str "draft 3") st.
Proof.
  intros st.
  assert (editorOk st) as Hok.
  { split; [by eexists|]. split; [reflexivity|]. cbn. lia. }
  split; [exact Hok|]. exact (undo_updateContent (str "draft 3") st Hok).
Defined.

Lemma style_then_clear_witness :
  0 ≤ 4 < 9 ∧ 9 ≤ Z.of_nat (length (str "our Notes app"))
  ∧ Forall (λ u, isAsciiAlnum u = true) (substring (str "our Notes app") 4 9)
  ∧ boldSans ∈ letterStyles
  ∧ ∃ content' sel,
      applyStyle (str "our Notes app") 4 9 boldSans = Some (content', sel)
      ∧ clearFormatting content' sel.1 sel.2 = str "our Notes app".
Proof.
  assert (boldSans ∈ letterStyles) as H4.
  { unfold letterStyles. set_solver. }
  assert (0 ≤ 4 < 9) as H1 by lia.
  assert (9 ≤ Z.of_nat (length (str "our Notes app"))) as H2 by (vm_compute; discriminate).
  assert (Forall (λ u, isAsciiAlnum u = true) (substring (str "our Notes app") 4 9)) as H3.
  { repeat constructor. }
  repeat (split; [assumption|]).
  exact (style_then_clear _ _ _ _ H1 H2 H3 H4).
Defined.
